(** * The Creatomate preview SDK wrapper ([Renderer]): a shallow embedding

    The development follows [src/renderer/Renderer.ts]: the values that
    travel over [postMessage], the tree helpers over a state snapshot, and
    the command/reply bookkeeping of the wrapper ([_sendCommand],
    [_handleMessage], [dispose] and the public command methods). *)

From Stdlib Require Import Ascii String.
From stdpp Require Import base strings list gmap pretty.


(** ** JavaScript values

    Messages are structured-clone data.  The wrapper never computes with
    numbers: it tests them for truthiness, turns them into property keys or
    error messages, and serialises them.  Those three operations are the
    interface of the number type. *)

Class NumberOps (number : Type) := {
  (** [false] exactly for [0], [-0] and [NaN]. *)
  number_truthy : number → bool;
  (** [Number.prototype.toString]. *)
  number_to_string : number → string;
  (** [JSON.parse(JSON.stringify(n))]: [None] stands for [null], which is
      what [NaN] and the infinities serialise to. *)
  number_json : number → option number;
}.

#[local] Unset Elimination Schemes.
Inductive JsVal {number : Type} : Type :=
  | JUndefined
  | JNull
  | JBool (b : bool)
  | JNum (n : number)
  | JStr (s : string)
  | JArr (items : list JsVal)
  | JObj (fields : list (string * JsVal))
  | JBlob (handle : nat).
#[local] Set Elimination Schemes.
Arguments JsVal : clear implicits.

(** An object is the list of its own enumerable properties, in enumeration
    order. *)
Abbreviation Fields number := (list (string * JsVal number)).

Section Values.
Context {number : Type} `{!NumberOps number}.

#[local] Abbreviation JsVal := (JsVal number).
#[local] Abbreviation Fields := (Fields number).

(** [ToBoolean]. *)
Definition truthy (v : JsVal) : bool :=
  match v with
  | JUndefined | JNull => false
  | JBool b => b
  | JNum n => number_truthy n
  | JStr s => negb (String.eqb s "")
  | JArr _ | JObj _ | JBlob _ => true
  end.

(** The [typeof] operator. *)
Definition typeof (v : JsVal) : string :=
  match v with
  | JUndefined => "undefined"
  | JBool _ => "boolean"
  | JNum _ => "number"
  | JStr _ => "string"
  | JNull | JArr _ | JObj _ | JBlob _ => "object"
  end.

Definition has_key (k : string) (fs : Fields) : bool :=
  existsb (λ kv, String.eqb kv.1 k) fs.

(** [ToString]; [None] when the conversion throws a [TypeError].  An array
    joins its elements with commas, printing [undefined] and [null]
    elements as the empty string.  A plain object answers through
    [Object.prototype.toString], unless an own [toString] member hides it:
    message data holds no functions, so that member is not callable, the
    inherited [valueOf] returns the object itself, and the conversion
    fails. *)
Fixpoint toString (v : JsVal) : option string :=
  match v with
  | JUndefined => Some "undefined"
  | JNull => Some "null"
  | JBool true => Some "true"
  | JBool false => Some "false"
  | JNum n => Some (number_to_string n)
  | JStr s => Some s
  | JArr items =>
      String.concat "," <$>
        (fix each (l : list JsVal) : option (list string) :=
           match l with
           | [] => Some []
           | x :: rest =>
               match (match x with
                      | JUndefined | JNull => Some ""
                      | _ => toString x
                      end), each rest with
               | Some s, Some r => Some (s :: r)
               | _, _ => None
               end
           end) items
  | JObj fs => if has_key "toString" fs then None else Some "[object Object]"
  | JBlob _ => Some "[object Blob]"
  end.

(** [ToPropertyKey] of the values above (no symbols cross [postMessage]). *)
Definition toPropertyKey (v : JsVal) : option string := toString v.

Fixpoint assoc (k : string) (fs : Fields) : option JsVal :=
  match fs with
  | [] => None
  | (k', v) :: rest => if String.eqb k k' then Some v else assoc k rest
  end.

(** The own enumerable properties of a value that passed the object test. *)
Definition own_fields (v : JsVal) : Fields :=
  match v with
  | JObj fs => fs
  | JArr items => imap (λ i x, (pretty i, x)) items
  | _ => []
  end.

(** [v.k] for the keys the wrapper reads ([id], [message], [error],
    [time], [tool], [elementIds], [state]): none of them is defined on
    [Object.prototype], [Array.prototype] or [Blob.prototype], so the own
    property decides. *)
Definition get (v : JsVal) (k : string) : JsVal :=
  default JUndefined (assoc k (own_fields v)).

Definition key_in (ks : list string) (k : string) : bool :=
  existsb (String.eqb k) ks.

(** The rest element of [const { k1, ..., kn, ...rest } = v]. *)
Definition rest_without (ks : list string) (v : JsVal) : JsVal :=
  JObj (List.filter (λ kv, negb (key_in ks kv.1)) (own_fields v)).

(** [o[k] = v] on a property list: an existing key keeps its place. *)
Fixpoint set_field (k : string) (v : JsVal) (fs : Fields) : Fields :=
  match fs with
  | [] => [(k, v)]
  | (k', v') :: rest =>
      if String.eqb k k' then (k, v) :: rest else (k', v') :: set_field k v rest
  end.

(** [{ ...base, ...more }]. *)
Definition spread (base more : Fields) : Fields :=
  fold_left (λ acc kv, set_field kv.1 kv.2 acc) more base.

(** [JSON.parse(JSON.stringify(v))]; [None] when [stringify] yields
    [undefined].  Properties holding [undefined] are dropped, array
    elements holding it become [null], a [Blob] has no own enumerable
    property. *)
Fixpoint json_value (v : JsVal) : option JsVal :=
  match v with
  | JUndefined => None
  | JNull => Some JNull
  | JBool b => Some (JBool b)
  | JNum n => Some (match number_json n with Some n' => JNum n' | None => JNull end)
  | JStr s => Some (JStr s)
  | JArr items =>
      Some (JArr (List.map (λ x, default JNull (json_value x)) items))
  | JObj fs =>
      Some (JObj ((fix go (fs : Fields) : Fields :=
                     match fs with
                     | [] => []
                     | (k, x) :: rest =>
                         match json_value x with
                         | Some x' => (k, x') :: go rest
                         | None => go rest
                         end
                     end) fs))
  | JBlob _ => Some (JObj [])
  end.

Definition json_fields (fs : Fields) : Fields :=
  match json_value (JObj fs) with
  | Some (JObj fs') => fs'
  | _ => []
  end.

End Values.

(** ** State snapshots and the tree helpers

    [RendererState] and [ElementState] are both objects with scalar members
    ([width], [height], ... for the snapshot; [track], [time], ... and
    [source] for an element) and an optional [elements] array of
    [ElementState]s.  The helpers accept either through the structural type
    [{ source; elements? }], so one node type serves both: [props] holds the
    scalar members, [elements] the optional array. *)

#[local] Unset Elimination Schemes.
Inductive ElementState {number : Type} : Type :=
  mkElementState (props : Fields number) (elements : option (list ElementState)).
#[local] Set Elimination Schemes.
Arguments ElementState : clear implicits.

Section Tree.
Context {number : Type}.

#[local] Abbreviation ElementState := (ElementState number).

Definition props (e : ElementState) : Fields number :=
  match e with mkElementState p _ => p end.

Definition elements (e : ElementState) : option (list ElementState) :=
  match e with mkElementState _ es => es end.

(** The body of [findElement] for a state that is present.  [predicate]
    is a function of the caller: next to the result, the model records the
    elements it was applied to, in the order of the calls.  The inner
    [scan] is the [for ... of] loop over [state.elements]; an absent
    [elements] member is falsy, an array (even an empty one) is truthy. *)
Fixpoint findElement_in (predicate : ElementState → bool) (state : ElementState)
    : list ElementState * option ElementState :=
  match state with
  | mkElementState _ (Some state_elements) =>
      (fix scan (es : list ElementState) : list ElementState * option ElementState :=
         match es with
         | [] => ([], None)
         | element :: later =>
             if predicate element then ([element], Some element)
             else
               match element with
               | mkElementState _ (Some _) =>
                   match findElement_in predicate element with
                   | (calls, Some foundNestedElement) =>
                       (element :: calls, Some foundNestedElement)
                   | (calls, None) =>
                       let '(more, found) := scan later in
                       (element :: calls ++ more, found)
                   end
               | mkElementState _ None =>
                   let '(more, found) := scan later in (element :: more, found)
               end
         end) state_elements
  | mkElementState _ None => ([], None)
  end.

(** The state [findElement] scans: the argument, or [this.state]. *)
Definition scanned (this_state state : option ElementState) : option ElementState :=
  match state with Some s => Some s | None => this_state end.

(** [findElement(predicate, state = this.state)]: an absent argument takes
    the wrapper's current snapshot, and [state?.elements] of an absent
    snapshot is [undefined]. *)
Definition findElement (this_state : option ElementState)
    (predicate : ElementState → bool) (state : option ElementState)
    : list ElementState * option ElementState :=
  match scanned this_state state with
  | Some s => findElement_in predicate s
  | None => ([], None)
  end.

(** The elements below a state in depth-first preorder: each element,
    then everything below it, then its later siblings.  The state itself
    is not listed. *)
Fixpoint preorder (state : ElementState) : list ElementState :=
  match state with
  | mkElementState _ (Some es) =>
      (fix walk (es : list ElementState) : list ElementState :=
         match es with
         | [] => []
         | element :: later => element :: preorder element ++ walk later
         end) es
  | mkElementState _ None => []
  end.

Definition preorder_list (es : list ElementState) : list ElementState :=
  flat_map (λ element, element :: preorder element) es.

(** A listing up to and including its first entry that satisfies [p]; the
    whole listing when there is none. *)
Fixpoint tested (p : ElementState → bool) (l : list ElementState) : list ElementState :=
  match l with
  | [] => []
  | x :: rest => x :: (if p x then [] else tested p rest)
  end.

(** The loop of [findElement_in], named. *)
Definition scan_elements (predicate : ElementState → bool)
    : list ElementState → list ElementState * option ElementState :=
  fix scan (es : list ElementState) : list ElementState * option ElementState :=
    match es with
    | [] => ([], None)
    | element :: later =>
        if predicate element then ([element], Some element)
        else
          match element with
          | mkElementState _ (Some _) =>
              match findElement_in predicate element with
              | (calls, Some foundNestedElement) =>
                  (element :: calls, Some foundNestedElement)
              | (calls, None) =>
                  let '(more, found) := scan later in
                  (element :: calls ++ more, found)
              end
          | mkElementState _ None =>
              let '(more, found) := scan later in (element :: more, found)
          end
    end.

(** The number of states in a tree. *)
Fixpoint weight (state : ElementState) : nat :=
  match state with
  | mkElementState _ (Some es) =>
      S ((fix total (es : list ElementState) : nat :=
            match es with
            | [] => 0
            | element :: later => weight element + total later
            end) es)
  | mkElementState _ None => 1
  end.

End Tree.

(** ** The wrapper and the part of the browser it acts on *)

Inductive Mode := player | interactive.

Definition mode_name (m : Mode) : string :=
  match m with player => "player" | interactive => "interactive" end.

Inductive Tool := tool_default | tool_pen | tool_text | tool_ellipse | tool_rectangle.

Definition tool_name (t : Tool) : string :=
  match t with
  | tool_default => "default"
  | tool_pen => "pen"
  | tool_text => "text"
  | tool_ellipse => "ellipse"
  | tool_rectangle => "rectangle"
  end.

(** An [Error] object: its [name] and its [message]. *)
Record JsError := mkJsError { error_name : string; error_message : string }.

Definition Error (message : string) : JsError := mkJsError "Error" message.
Definition TypeError (message : string) : JsError := mkJsError "TypeError" message.

(** A function the user assigned to one of the [on...] members.  Its body is
    user code and no part of the wrapper; the model records that it is
    called, and with what. *)
Definition Callback : Type := nat.

Record Handlers := mkHandlers {
  onReady : option Callback;
  onLoad : option Callback;
  onLoadComplete : option Callback;
  onPlay : option Callback;
  onPause : option Callback;
  onTimeChange : option Callback;
  onToolChange : option Callback;
  onActiveElementsChange : option Callback;
  onStateChange : option Callback;
}.

Definition no_handlers : Handlers :=
  mkHandlers None None None None None None None None None.

(** The member assigned under the name of an event; [None] also when the
    name is not the name of an event. *)
Definition handler_for (name : string) (h : Handlers) : option Callback :=
  if String.eqb name "onReady" then onReady h
  else if String.eqb name "onLoad" then onLoad h
  else if String.eqb name "onLoadComplete" then onLoadComplete h
  else if String.eqb name "onPlay" then onPlay h
  else if String.eqb name "onPause" then onPause h
  else if String.eqb name "onTimeChange" then onTimeChange h
  else if String.eqb name "onToolChange" then onToolChange h
  else if String.eqb name "onActiveElementsChange" then onActiveElementsChange h
  else if String.eqb name "onStateChange" then onStateChange h
  else None.

(** The [iframe] element the constructor creates. *)
Record Iframe := mkIframe {
  attributes : list (string * string);
  style_border : string;
  style_display : string;
  (** whether the element has a parent node *)
  attached : bool;
}.

(** An attribute list after [setAttribute(name, value)]. *)
Fixpoint set_attr (name value : string) (l : list (string * string))
    : list (string * string) :=
  match l with
  | [] => [(name, value)]
  | (n, v) :: rest =>
      if String.eqb n name then (n, value) :: rest else (n, v) :: set_attr name value rest
  end.

Definition setAttribute (name value : string) (f : Iframe) : Iframe :=
  mkIframe (set_attr name value (attributes f))
    (style_border f) (style_display f) (attached f).

(** How a call ends: normally with a value, or with an exception. *)
Inductive Completion (A : Type) :=
  | Normal (a : A)
  | Throw (e : JsError).
Arguments Normal {A} a.
Arguments Throw {A} e.

(** [getAttribute(name)] *)
Fixpoint assoc_attr (name : string) (l : list (string * string)) : option string :=
  match l with
  | [] => None
  | (n, v) :: rest => if String.eqb name n then Some v else assoc_attr name rest
  end.

Section Wrapper.
Context {number : Type} `{!NumberOps number}.

(** The identifiers handed out by the [uuid] package, in the order of the
    calls.  The package is a dependency, not part of the repository; its
    version-4 identifiers are 36 characters long. *)
Variable uuid : nat → string.

#[local] Abbreviation JsVal := (JsVal number).
#[local] Abbreviation Fields := (Fields number).

Inductive Settlement :=
  | Fulfilled (value : JsVal)
  | Rejected (reason : JsError).

Inductive PromiseState :=
  | Pending
  | Settled (s : Settlement).

(** What the wrapper does to the outside, in order. *)
Inductive Effect :=
  | PostMessage (message : JsVal) (targetOrigin : string)
  | Call (f : Callback) (args : list JsVal).

(** The members of a [Renderer] instance.  [_pendingPromises] maps an
    identifier to the promise whose [resolve] and [reject] the entry
    holds; [state] is [JUndefined] until the first state change. *)
Record Renderer := mkRenderer {
  handlers : Handlers;
  mode : Mode;
  ready : bool;
  state : JsVal;
  _iframe : Iframe;
  _pendingPromises : gmap string nat;
}.

(** The browser around it: the promises created so far (a promise is its
    index), whether [_handleMessage] is registered as a [message] listener
    of the window, the container element, the number of [uuid()] calls
    made, and the effects so far. *)
Record Browser := mkBrowser {
  promises : list PromiseState;
  listening : bool;
  element_connected : bool;
  element_overflow : string;
  uuid_calls : nat;
  trace : list Effect;
}.

Record Sys := mkSys { this : Renderer; browser : Browser }.

(** [iframe.contentWindow] is non-null exactly while the element is in a
    document. *)
Definition contentWindow (s : Sys) : bool :=
  attached (_iframe (this s)) && element_connected (browser s).

(** *** Computations: state passing with exceptions *)

Definition M (A : Type) : Type := Sys → Completion A * Sys.

#[local] Instance M_ret : MRet M := λ A a s, (Normal a, s).
#[local] Instance M_bind : MBind M := λ A B f m s,
  match m s with
  | (Normal a, s') => f a s'
  | (Throw e, s') => (Throw e, s')
  end.

Definition throw {A} (e : JsError) : M A := λ s, (Throw e, s).
Definition read : M Sys := λ s, (Normal s, s).
Definition update (f : Sys → Sys) : M unit := λ s, (Normal (), f s).

Definition with_this (f : Renderer → Renderer) (s : Sys) : Sys :=
  mkSys (f (this s)) (browser s).
Definition with_browser (f : Browser → Browser) (s : Sys) : Sys :=
  mkSys (this s) (f (browser s)).

Definition set_ready (b : bool) (r : Renderer) : Renderer :=
  mkRenderer (handlers r) (mode r) b (state r) (_iframe r) (_pendingPromises r).
Definition set_state (v : JsVal) (r : Renderer) : Renderer :=
  mkRenderer (handlers r) (mode r) (ready r) v (_iframe r) (_pendingPromises r).
Definition set_iframe (f : Iframe) (r : Renderer) : Renderer :=
  mkRenderer (handlers r) (mode r) (ready r) (state r) f (_pendingPromises r).
Definition set_pending (p : gmap string nat) (r : Renderer) : Renderer :=
  mkRenderer (handlers r) (mode r) (ready r) (state r) (_iframe r) p.
Definition set_handlers (h : Handlers) (r : Renderer) : Renderer :=
  mkRenderer h (mode r) (ready r) (state r) (_iframe r) (_pendingPromises r).

Definition set_promises (ps : list PromiseState) (b : Browser) : Browser :=
  mkBrowser ps (listening b) (element_connected b) (element_overflow b)
    (uuid_calls b) (trace b).
Definition set_listening (l : bool) (b : Browser) : Browser :=
  mkBrowser (promises b) l (element_connected b) (element_overflow b)
    (uuid_calls b) (trace b).
Definition set_uuid_calls (n : nat) (b : Browser) : Browser :=
  mkBrowser (promises b) (listening b) (element_connected b) (element_overflow b)
    n (trace b).
Definition set_trace (t : list Effect) (b : Browser) : Browser :=
  mkBrowser (promises b) (listening b) (element_connected b) (element_overflow b)
    (uuid_calls b) t.
Definition set_connected (c : bool) (b : Browser) : Browser :=
  mkBrowser (promises b) (listening b) c (element_overflow b)
    (uuid_calls b) (trace b).

Definition emit (e : Effect) : M unit :=
  update (with_browser (λ b, set_trace (trace b ++ [e]) b)).

(** *** Promises *)

(** [new Promise(...)]: the new promise is pending. *)
Definition new_promise : M nat := λ s,
  (Normal (length (promises (browser s))),
   with_browser (λ b, set_promises (promises b ++ [Pending]) b) s).

(** The [resolve] and [reject] functions of promise [p]: they settle it
    if it is pending and do nothing otherwise.  (The values resolved here
    are clones of message data and carry no callable [then].) *)
Definition settle (p : nat) (o : Settlement) : M unit :=
  update (with_browser (λ b,
    match promises b !! p with
    | Some Pending => set_promises (<[p := Settled o]> (promises b)) b
    | _ => b
    end)).

Definition resolve (p : nat) (value : JsVal) : M unit := settle p (Fulfilled value).
Definition reject (p : nat) (reason : JsError) : M unit := settle p (Rejected reason).

(** *** The pending table is a plain object

    [_pendingPromises] is created as [{}], so reading a key that is not
    an own property falls through to [Object.prototype]. *)
Definition object_prototype_keys : list string :=
  [ "constructor"; "hasOwnProperty"; "isPrototypeOf"; "propertyIsEnumerable";
    "toLocaleString"; "toString"; "valueOf"; "__proto__";
    "__defineGetter__"; "__defineSetter__"; "__lookupGetter__"; "__lookupSetter__" ].

Inductive TableRead :=
  | OwnEntry (pendingPromise : nat)
  | Inherited
  | Absent.

Definition read_pending (table : gmap string nat) (key : string) : TableRead :=
  match table !! key with
  | Some p => OwnEntry p
  | None => if key_in object_prototype_keys key then Inherited else Absent
  end.

(** *** Sending a command *)

Definition not_ready_error : JsError :=
  Error "The SDK is not yet ready. Please wait for the onReady event before calling any methods.".

(** [uuid()] *)
Definition next_uuid : M string := λ s,
  (Normal (uuid (uuid_calls (browser s))),
   with_browser (λ b, set_uuid_calls (S (uuid_calls b)) b) s).

(** [this._iframe.contentWindow?.postMessage(message, targetOrigin)] *)
Definition postMessage (message : JsVal) (targetOrigin : string) : M unit :=
  s ← read;
  if contentWindow s then emit (PostMessage message targetOrigin) else mret ().

(** An identifier of the [uuid] package is never [__proto__], so the
    assignment to [this._pendingPromises[id]] creates or replaces an own
    property. *)
Definition _sendCommand (message : Fields) (payload : option Fields) : M nat :=
  s ← read;
  if negb (ready (this s)) then throw not_ready_error
  else
    id ← next_uuid;
    postMessage
      (JObj (spread (spread [("id", JStr id)] (json_fields message))
               (default [] payload))) "*";;
    (* Create pending promise *)
    p ← new_promise;
    update (with_this (λ r, set_pending (<[id := p]> (_pendingPromises r)) r));;
    mret p.

(** *** The public command methods

    Each one builds a message, hands it to [_sendCommand], and attaches a
    [catch] handler that rethrows under a prefix of its own. *)
Inductive Command :=
  | SetMode (m : Mode)
  | LoadTemplate (templateId : string)
  | SetSource (source : Fields) (createUndoPoint : bool)
  | SetModifications (modifications : Fields)
  | ApplyModifications (modifications : Fields)
  | Undo
  | Redo
  | SetTool (tool : Tool)
  | SetActiveElements (elementIds : list string)
  | SetTime (time : number)
  | Play
  | Pause
  | CacheAsset (url : string) (blob : nat).

Definition command_message (c : Command) : Fields :=
  match c with
  | SetMode m => [("message", JStr "setMode"); ("mode", JStr (mode_name m))]
  | LoadTemplate templateId =>
      [("message", JStr "setTemplate"); ("templateId", JStr templateId)]
  | SetSource source createUndoPoint =>
      [("message", JStr "setSource"); ("source", JObj source);
       ("createUndoPoint", JBool createUndoPoint)]
  | SetModifications modifications =>
      [("message", JStr "setModifications"); ("modifications", JObj modifications)]
  | ApplyModifications modifications =>
      [("message", JStr "applyModifications"); ("modifications", JObj modifications)]
  | Undo => [("message", JStr "undo")]
  | Redo => [("message", JStr "redo")]
  | SetTool tool => [("message", JStr "setTool"); ("tool", JStr (tool_name tool))]
  | SetActiveElements elementIds =>
      [("message", JStr "setActiveElements");
       ("elementIds", JArr (List.map JStr elementIds))]
  | SetTime time => [("message", JStr "setTime"); ("time", JNum time)]
  | Play => [("message", JStr "play")]
  | Pause => [("message", JStr "pause")]
  | CacheAsset url _ => [("message", JStr "cacheAsset"); ("url", JStr url)]
  end.

Definition command_payload (c : Command) : option Fields :=
  match c with
  | CacheAsset _ blob => Some [("blob", JBlob blob)]
  | _ => None
  end.

Definition failure_prefix (c : Command) : string :=
  match c with
  | SetMode _ => "Failed to set mode: "
  | LoadTemplate _ => "Failed to load template: "
  | SetSource _ _ => "Failed to set source: "
  | SetModifications _ => "Failed to set modifications: "
  | ApplyModifications _ => "Failed to apply modifications: "
  | Undo => "Failed to undo: "
  | Redo => "Failed to redo: "
  | SetTool _ => "Failed to set tool: "
  | SetActiveElements _ => "Failed to set active elements: "
  | SetTime _ => "Failed to set time: "
  | Play => "Failed to play: "
  | Pause => "Failed to pause: "
  | CacheAsset _ _ => "Failed to cache asset: "
  end.

(** Every method but [cacheAsset] is declared [async]. *)
Definition is_async (c : Command) : bool :=
  match c with CacheAsset _ _ => false | _ => true end.

(** Methods that [return] the awaited value; the others only [await]. *)
Definition returns_reply (c : Command) : bool :=
  match c with
  | SetMode _ | LoadTemplate _ | SetSource _ _ | SetTool _ | SetActiveElements _ => false
  | _ => true
  end.

(** Methods that show the iframe once the command succeeded. *)
Definition shows_iframe (c : Command) : bool :=
  match c with LoadTemplate _ | SetSource _ _ => true | _ => false end.

(** The promise a method returns: rejected on the spot, or following the
    promise [_sendCommand] created. *)
Inductive Returned :=
  | RejectedWith (e : JsError)
  | Follows (inner : nat) (c : Command).

Definition attempt {A} (m : M A) : M (Completion A) := λ s,
  match m s with (c, s') => (Normal c, s') end.

(** The synchronous part of a method call.  In an [async] method an
    exception thrown before the first [await] rejects the returned
    promise; [cacheAsset] lets it escape. *)
Definition call (c : Command) : M Returned :=
  if is_async c then
    r ← attempt (_sendCommand (command_message c) (command_payload c));
    match r with
    | Normal p => mret (Follows p c)
    | Throw e => mret (RejectedWith e)
    end
  else
    p ← _sendCommand (command_message c) (command_payload c);
    mret (Follows p c).

Definition setMode (mode : Mode) : M Returned := call (SetMode mode).
Definition loadTemplate (templateId : string) : M Returned := call (LoadTemplate templateId).
Definition setSource (source : Fields) (createUndoPoint : bool) : M Returned :=
  call (SetSource source createUndoPoint).
Definition setModifications (modifications : Fields) : M Returned :=
  call (SetModifications modifications).
Definition applyModifications (modifications : Fields) : M Returned :=
  call (ApplyModifications modifications).
Definition undo : M Returned := call Undo.
Definition redo : M Returned := call Redo.
Definition setTool (tool : Tool) : M Returned := call (SetTool tool).
Definition setActiveElements (elementIds : list string) : M Returned :=
  call (SetActiveElements elementIds).
Definition setTime (time : number) : M Returned := call (SetTime time).
Definition play : M Returned := call Play.
Definition pause : M Returned := call Pause.
Definition cacheAsset (url : string) (blob : nat) : M Returned := call (CacheAsset url blob).

(** [(error) => { throw new Error(`Failed to ...: ${error.message}`) }] *)
Definition catch_handler (c : Command) (error : JsError) : JsError :=
  Error (failure_prefix c +:+ error_message error).

(** How the promise returned by method [c] settles once the promise of
    [_sendCommand] has settled with [inner].  (After a fulfilment,
    [loadTemplate] and [setSource] also reset [style.display]; see
    [shows_iframe].) *)
Definition method_settlement (c : Command) (inner : Settlement) : Settlement :=
  match inner with
  | Fulfilled value => Fulfilled (if returns_reply c then value else JUndefined)
  | Rejected error => Rejected (catch_handler c error)
  end.

(** *** The message listener *)

Definition call_if_set (f : option Callback) (args : list JsVal) : M unit :=
  match f with
  | Some f => emit (Call f args)
  | None => mret ()
  end.

(** Calling a member that is [undefined]. *)
Definition not_a_function (member : string) : JsError :=
  TypeError ("pendingPromise." +:+ member +:+ " is not a function").

(** The [switch (message)] of an event.  [case] labels compare with
    [===], so only a string can select one. *)
Definition dispatch_event (message args : JsVal) : M unit :=
  match message with
  | JStr name =>
      if String.eqb name "onReady" then
        (* The component is ready to use *)
        update (with_this (set_ready true));;
        (* Set the mode as provided in the constructor *)
        s ← read;
        setMode (mode (this s));;
        s ← read;
        call_if_set (onReady (handlers (this s))) []
      else if String.eqb name "onLoad" then
        s ← read; call_if_set (onLoad (handlers (this s))) []
      else if String.eqb name "onLoadComplete" then
        s ← read; call_if_set (onLoadComplete (handlers (this s))) []
      else if String.eqb name "onPlay" then
        s ← read; call_if_set (onPlay (handlers (this s))) []
      else if String.eqb name "onPause" then
        s ← read; call_if_set (onPause (handlers (this s))) []
      else if String.eqb name "onTimeChange" then
        s ← read; call_if_set (onTimeChange (handlers (this s))) [get args "time"]
      else if String.eqb name "onToolChange" then
        s ← read; call_if_set (onToolChange (handlers (this s))) [get args "tool"]
      else if String.eqb name "onActiveElementsChange" then
        s ← read;
        call_if_set (onActiveElementsChange (handlers (this s))) [get args "elementIds"]
      else if String.eqb name "onStateChange" then
        update (with_this (set_state (get args "state")));;
        s ← read;
        call_if_set (onStateChange (handlers (this s))) [get args "state"]
      else mret ()
  | _ => mret ()
  end.

Definition cannot_convert : JsError :=
  TypeError "Cannot convert object to primitive value".

(** The reply branch: [this._pendingPromises[id]] is read as a property
    of a plain object, under the key [id] converts to.  An own entry is
    settled and deleted; [new Error(error)] converts [error] to the
    message.  A value inherited from [Object.prototype] is truthy and has
    neither [resolve] nor [reject], so the call throws (after its argument
    was evaluated) and the [delete] is not reached. *)
Definition settle_reply (id error args : JsVal) : M unit :=
  match toPropertyKey id with
  | None => throw cannot_convert
  | Some key =>
      s ← read;
      match read_pending (_pendingPromises (this s)) key with
      | OwnEntry pendingPromise =>
          (if truthy error
           then
             match toString error with
             | Some message => reject pendingPromise (Error message)
             | None => throw cannot_convert
             end
           else resolve pendingPromise args);;
          (* Clean up *)
          update (with_this (λ r, set_pending (delete key (_pendingPromises r)) r))
      | Inherited =>
          if truthy error
          then
            match toString error with
            | Some _ => throw (not_a_function "reject")
            | None => throw cannot_convert
            end
          else throw (not_a_function "resolve")
      | Absent => mret ()
      end
  end.

Definition _handleMessage (data : JsVal) : M unit :=
  if negb (truthy data) || negb (String.eqb (typeof data) "object") then mret ()
  else
    let id := get data "id" in
    let message := get data "message" in
    let error := get data "error" in
    let args := rest_without ["id"; "message"; "error"] data in
    if truthy id then settle_reply id error args
    else dispatch_event message args.

(** The settlement a reply asks for: a rejection with the message its
    [error] member converts to when that member is truthy, a fulfilment
    with the rest object otherwise.  [None] when the member is truthy and
    has no string form. *)
Definition requested (data : JsVal) : option Settlement :=
  if truthy (get data "error")
  then (λ message, Rejected (Error message)) <$> toString (get data "error")
  else Some (Fulfilled (rest_without ["id"; "message"; "error"] data)).

(** *** Construction and disposal *)

Definition embed_url (mode : Mode) (publicToken : string) : string :=
  "https://creatomate.com/embed?mode=" +:+ mode_name mode +:+ "&token=" +:+ publicToken.

(** [new Renderer(element, mode, publicToken)] in a fresh page;
    [connected] tells whether [element] is in the document. *)
Definition constructor (connected : bool) (mode : Mode) (publicToken : string) : Sys :=
  mkSys
    (mkRenderer no_handlers mode false JUndefined
       (mkIframe
          [("width", "100%"); ("height", "100%"); ("scrolling", "no");
           ("allow", "autoplay"); ("src", embed_url mode publicToken)]
          "none" "none" true)
       ∅)
    (mkBrowser [] true connected "hidden" 0 []).

(** [parentNode?.removeChild(iframe)] *)
Definition removeFromParent (f : Iframe) : Iframe :=
  mkIframe (attributes f) (style_border f) (style_display f) false.

Definition dispose : M unit :=
  update (with_browser (set_listening false));;
  update (with_this (λ r, set_iframe (removeFromParent (_iframe r)) r));;
  update (with_this (λ r, set_iframe (setAttribute "src" "" (_iframe r)) r));;
  update (with_this (set_pending ∅)).

(** *** What can happen to a wrapper

    The members [mode], [ready] and [state] are written by the wrapper
    only; the user assigns the [on...] members and calls the methods. *)

Inductive Action :=
  (** the window dispatches a [message] event carrying [data] *)
  | Receive (data : JsVal)
  (** the user calls a command method *)
  | Invoke (c : Command)
  | Dispose
  (** the user assigns the [on...] members *)
  | Assign (h : Handlers)
  (** the container enters or leaves the document *)
  | Connect (connected : bool).

Definition perform (s : Sys) (a : Action) : Sys :=
  match a with
  | Receive data => if listening (browser s) then (_handleMessage data s).2 else s
  | Invoke c => (call c s).2
  | Dispose => (dispose s).2
  | Assign h => with_this (set_handlers h) s
  | Connect connected => with_browser (set_connected connected) s
  end.

Definition run (s : Sys) (actions : list Action) : Sys := fold_left perform actions s.

End Wrapper.

(** ** The invariant of the pending table

    Every key of the table is an identifier handed out by [uuid()] (hence
    36 characters long), every entry holds the functions of a promise that
    is still pending, and no two entries hold the same promise. *)

Section Invariant.
Context {number : Type}.

Definition is_pending (p : PromiseState (number := number)) : bool :=
  match p with Pending => true | Settled _ => false end.

Definition entry_ok (ps : list (PromiseState (number := number)))
    (key : string) (p : nat) : Prop :=
  String.length key = 36 ∧ is_pending <$> ps !! p = Some true.

Definition one_key_per_promise (table : gmap string nat) : Prop :=
  map_Forall (λ k p, map_Forall (λ k' p', p = p' → k = k') table) table.

Definition wf_table (ps : list (PromiseState (number := number)))
    (table : gmap string nat) : Prop :=
  map_Forall (entry_ok ps) table ∧ one_key_per_promise table.

Definition wf (s : Sys (number := number)) : Prop :=
  wf_table (promises (browser s)) (_pendingPromises (this s)).

#[global] Instance wf_dec s : Decision (wf s).
Proof. unfold wf, wf_table, one_key_per_promise, entry_ok. apply _. Defined.

End Invariant.

(** [needle] occurs in [haystack]. *)
Definition contains (needle haystack : string) : Prop :=
  ∃ before after, haystack = before +:+ needle +:+ after.

(** ** Sample data

    Integers stand for the numbers of the examples (integers of magnitude
    below 1e21 print in plain decimal and survive JSON unchanged). *)

#[global] Instance Z_NumberOps : NumberOps Z := {|
  number_truthy z := negb (Z.eqb z 0);
  number_to_string z := pretty z;
  number_json z := Some z;
|}.

Definition hex_digit (n : N) : Ascii.ascii :=
  default "0"%char
    (list_ascii_of_string "0123456789abcdef" !! N.to_nat (N.land n 15)).

(** A generator of identifiers in the textual form of a version-4 UUID. *)
Definition sample_uuid (k : nat) : string :=
  let n := N.of_nat k in
  "3f2b8c1e-7a4d-4e5f-9b6a-" +:+
  String (hex_digit (N.shiftr n 44)) (String (hex_digit (N.shiftr n 40))
  (String (hex_digit (N.shiftr n 36)) (String (hex_digit (N.shiftr n 32))
  (String (hex_digit (N.shiftr n 28)) (String (hex_digit (N.shiftr n 24))
  (String (hex_digit (N.shiftr n 20)) (String (hex_digit (N.shiftr n 16))
  (String (hex_digit (N.shiftr n 12)) (String (hex_digit (N.shiftr n 8))
  (String (hex_digit (N.shiftr n 4)) (String (hex_digit n) ""))))))))))).

(** A wrapper just constructed in a container that is in the document, the
    same wrapper once the embed announced itself (the [setMode] command of
    the wrapper is then awaiting its reply), and a wrapper constructed in a
    container that is not in the document. *)
Definition fresh : Sys (number := Z) := constructor true player "public-token".

Definition onReady_event : JsVal Z := JObj [("message", JStr "onReady")].

Definition awaiting : Sys (number := Z) := run sample_uuid fresh [Receive onReady_event].

Definition detached : Sys (number := Z) := constructor false player "public-token".

(** A snapshot whose only top-level element is A, with A→[B, C→[D]]. *)
Definition named (name : string) (children : option (list (ElementState Z)))
    : ElementState Z :=
  mkElementState [("source", JObj [("name", JStr name)])] children.

Definition name_of (e : ElementState Z) : string :=
  match get (JObj (props e)) "source" with
  | JObj source => default "" (toString (get (JObj source) "name"))
  | _ => ""
  end.

Definition is_named (name : string) (e : ElementState Z) : bool :=
  String.eqb (name_of e) name.

Definition elD : ElementState Z := named "D" None.
Definition elC : ElementState Z := named "C" (Some [elD]).
Definition elB : ElementState Z := named "B" None.
Definition elA : ElementState Z := named "A" (Some [elB; elC]).
Definition snapshot : ElementState Z :=
  mkElementState
    [("width", JNum 1280%Z); ("height", JNum 720%Z); ("source", JObj [])]
    (Some [elA]).

(** ** The other helpers over a snapshot: [getSource] and [getElements]

    Both read [state.source], which the interfaces declare as a plain
    object ([Record<string, any>]).  The copy [{ ...state.source }] of such
    an object has the same property list. *)

Section Snapshots.
Context {number : Type} `{!NumberOps number}.

#[local] Abbreviation JsVal := (JsVal number).
#[local] Abbreviation ElementState := (ElementState number).

(** [state.source] *)
Definition source (state : ElementState) : JsVal := get (JObj (props state)) "source".

(** The body of [getSource] for a state that is present: with an
    [elements] array, a new object made of the members of the source and
    the sources of the elements; without one, the source itself. *)
Fixpoint getSource_in (state : ElementState) : JsVal :=
  match state with
  | mkElementState ps (Some state_elements) =>
      JObj (set_field "elements" (JArr (List.map getSource_in state_elements))
              (own_fields (get (JObj ps) "source")))
  | mkElementState ps None => get (JObj ps) "source"
  end.

(** [getSource(state = this.state)] *)
Definition getSource (this_state state : option ElementState) : JsVal :=
  match scanned this_state state with
  | Some s => getSource_in s
  | None => JObj []
  end.

Definition cannot_read_type : JsError :=
  TypeError "Cannot read properties of undefined (reading 'type')".

(** The body of [getElements] for a state that is present.  Reading
    [state.source.type] throws when the state has no source; the members of
    a source are those of a plain object.  The inner [each] is the loop
    [for (const nestedElement of state.elements)], with the array
    [elements] built so far. *)
Fixpoint getElements_in (state : ElementState) : Completion (list ElementState) :=
  match state with
  | mkElementState ps nested =>
      match get (JObj ps) "source" with
      | JUndefined | JNull => Throw cannot_read_type
      | state_source =>
          let elements := if truthy (get state_source "type") then [state] else [] in
          match nested with
          | Some state_elements =>
              (fix each (es elements : list ElementState)
                 : Completion (list ElementState) :=
                 match es with
                 | [] => Normal elements
                 | nestedElement :: later =>
                     match getElements_in nestedElement with
                     | Normal found => each later (elements ++ found)
                     | Throw e => Throw e
                     end
                 end) state_elements elements
          | None => Normal elements
          end
      end
  end.

(** [getElements(state = this.state)] *)
Definition getElements (this_state state : option ElementState)
    : Completion (list ElementState) :=
  match scanned this_state state with
  | Some s => getElements_in s
  | None => Normal []
  end.

(** The loop of [getElements_in], named. *)
Definition collect_elements
    : list ElementState → list ElementState → Completion (list ElementState) :=
  fix each (es elements : list ElementState) : Completion (list ElementState) :=
    match es with
    | [] => Normal elements
    | nestedElement :: later =>
        match getElements_in nestedElement with
        | Normal found => each later (elements ++ found)
        | Throw e => Throw e
        end
    end.

(** A state whose source is there, and one whose source is a plain object. *)
Definition has_source (state : ElementState) : bool :=
  match source state with JUndefined | JNull => false | _ => true end.

Definition plain_source (state : ElementState) : bool :=
  match source state with JObj _ => true | _ => false end.

(** [state.source.type] is truthy. *)
Definition has_type (state : ElementState) : bool := truthy (get (source state) "type").

(** A state with the members of its source only. *)
Fixpoint source_only (state : ElementState) : ElementState :=
  match state with
  | mkElementState ps nested =>
      mkElementState [("source", get (JObj ps) "source")]
        (match nested with
         | Some es => Some (List.map source_only es)
         | None => None
         end)
  end.

End Snapshots.

(** A snapshot of a video with a title and a slide that holds an image
    and a caption: every element has a source with a [type], the snapshot
    itself has a source without one. *)
Definition element_of (name type : string) (children : option (list (ElementState Z)))
    : ElementState Z :=
  mkElementState
    [("track", JNum 1%Z); ("source", JObj [("name", JStr name); ("type", JStr type)])]
    children.

Definition title_element : ElementState Z := element_of "Title" "text" None.
Definition image_element : ElementState Z := element_of "Slide-1-Image" "image" None.
Definition caption_element : ElementState Z := element_of "Slide-1-Text" "text" None.
Definition slide_element : ElementState Z :=
  element_of "Slide-1" "composition" (Some [image_element; caption_element]).

Definition video : ElementState Z :=
  mkElementState
    [("width", JNum 1280%Z); ("height", JNum 720%Z);
     ("source", JObj [("output_format", JStr "mp4")])]
    (Some [title_element; slide_element]).

(** The wrapper of [awaiting] once the reply to its first command has
    come in. *)
Definition first_reply : JsVal Z := JObj [("id", JStr (sample_uuid 0))].

Definition answered : Sys (number := Z) := run sample_uuid awaiting [Receive first_reply].

Definition state_change_event : JsVal Z :=
  JObj [("message", JStr "onStateChange");
        ("state", JObj [("width", JNum 1280%Z); ("height", JNum 720%Z)])].

(** ** The settings panel: adding a slide

    [addSlide] edits the source it gets from [getSource()] and hands the
    result to [setSource].  The preview object it talks to comes from a
    package; the model takes the source as its input and returns what is
    passed to [setSource], up to that call. *)

Section SettingsPanel.
Context {number : Type} `{!NumberOps number}.

#[local] Abbreviation JsVal := (JsVal number).
#[local] Abbreviation Fields := (Fields number).

(** The values of the numeric literals [1], [4], [0.5] and [3.5]. *)
Variables (num_1 num_4 num_0_5 num_3_5 : number).

Definition createSlide (slideName caption : string) : JsVal :=
  JObj
    [("name", JStr slideName);
     ("type", JStr "composition");
     ("track", JNum num_1);
     ("duration", JNum num_4);
     ("animations",
      JArr [JObj [("type", JStr "fade"); ("duration", JNum num_1);
                  ("transition", JBool true)]]);
     ("elements",
      JArr
        [JObj
           [("name", JStr (slideName +:+ "-Image"));
            ("type", JStr "image");
            ("animations",
             JArr [JObj [("easing", JStr "linear"); ("type", JStr "scale");
                         ("fade", JBool false); ("scope", JStr "element");
                         ("end_scale", JStr "130%"); ("start_scale", JStr "100%")]]);
            ("source",
             JStr "https://creatomate-static.s3.amazonaws.com/demo/samuel-ferrara-1527pjeb6jg-unsplash.jpg")];
         JObj
           [("name", JStr (slideName +:+ "-Text"));
            ("type", JStr "text");
            ("time", JNum num_0_5);
            ("duration", JNum num_3_5);
            ("y", JStr "83.3107%");
            ("width", JStr "70%");
            ("height", JStr "10%");
            ("x_alignment", JStr "50%");
            ("y_alignment", JStr "100%");
            ("fill_color", JStr "#ffffff");
            ("animations",
             JArr [JObj [("time", JStr "start"); ("duration", JNum num_1);
                         ("easing", JStr "quadratic-out"); ("type", JStr "text-slide");
                         ("scope", JStr "split-clip"); ("split", JStr "line");
                         ("direction", JStr "up");
                         ("background_effect", JStr "scaling-clip")];
                   JObj [("easing", JStr "linear"); ("type", JStr "scale");
                         ("fade", JBool false); ("scope", JStr "element");
                         ("y_anchor", JStr "100%"); ("end_scale", JStr "130%");
                         ("start_scale", JStr "100%")]]);
            ("text", JStr caption);
            ("font_family", JStr "Roboto Condensed");
            ("font_weight", JStr "700");
            ("background_color", JStr "rgba(220,171,94,1)");
            ("background_x_padding", JStr "80%")]])].

(** [delete o[k]] on a property list. *)
Definition delete_field (k : string) (fs : Fields) : Fields :=
  List.filter (λ kv, negb (String.eqb kv.1 k)) fs.

Definition cannot_convert_to_object : JsError :=
  TypeError "Cannot convert undefined or null to object".

(** [delete v[k]] in strict code: a [TypeError] on [undefined] and [null],
    nothing to delete on the other values that are not plain objects. *)
Definition delete_member (k : string) (v : JsVal) : Completion JsVal :=
  match v with
  | JUndefined | JNull => Throw cannot_convert_to_object
  | JObj fs => Normal (JObj (delete_field k fs))
  | _ => Normal v
  end.

(** [for (const element of elements) { delete element.time; }] *)
Fixpoint delete_times (elements : list JsVal) : Completion (list JsVal) :=
  match elements with
  | [] => Normal []
  | element :: later =>
      match delete_member "time" element with
      | Throw e => Throw e
      | Normal element' =>
          match delete_times later with
          | Throw e => Throw e
          | Normal later' => Normal (element' :: later')
          end
      end
  end.

Definition not_callable (what : string) : JsError :=
  TypeError (what +:+ " is not a function").

(** [(element) => element.name?.startsWith('Slide-')] on an element that
    is neither [undefined] nor [null]: only a string has [startsWith]. *)
Definition starts_with_Slide (element : JsVal) : Completion bool :=
  match get element "name" with
  | JUndefined | JNull => Normal false
  | JStr name => Normal (String.prefix "Slide-" name)
  | _ => Throw (not_callable "element.name?.startsWith")
  end.

(** [findLastIndex] walks from the last element down and stops at the
    first hit; [backwards] is the array reversed, so the index of its head
    is the length of its tail.  [None] is the result [-1]. *)
Fixpoint findLastIndex_in (predicate : JsVal → Completion bool) (backwards : list JsVal)
    : Completion (option nat) :=
  match backwards with
  | [] => Normal None
  | element :: earlier =>
      match predicate element with
      | Throw e => Throw e
      | Normal true => Normal (Some (length earlier))
      | Normal false => findLastIndex_in predicate earlier
      end
  end.

Definition findLastIndex (predicate : JsVal → Completion bool) (elements : list JsVal)
    : Completion (option nat) :=
  findLastIndex_in predicate (rev elements).

(** [array.splice(start, 0, item)] for [start] within the array. *)
Definition splice_in (start : nat) (item : JsVal) (elements : list JsVal) : list JsVal :=
  take start elements ++ item :: drop start elements.

Definition not_iterable : JsError := TypeError "source.elements is not iterable".

(** [addSlide] from the result [source] of [getSource()] to the call of
    [setSource]: the argument of that call, or [None] when the call is not
    made. *)
Definition addSlide (source : JsVal) : Completion (option JsVal) :=
  match source with
  | JUndefined | JNull => Throw cannot_convert_to_object
  | JObj members =>
      let members := delete_field "duration" members in
      match get (JObj members) "elements" with
      | JArr elements =>
          match delete_times elements with
          | Throw e => Throw e
          | Normal elements =>
              match findLastIndex starts_with_Slide elements with
              | Throw e => Throw e
              | Normal None => Normal None
              | Normal (Some lastSlideIndex) =>
                  let slideName := "Slide-" +:+ pretty lastSlideIndex in
                  let newSlideSource :=
                    createSlide slideName
                      ("This is the text caption for newly added slide "
                       +:+ pretty lastSlideIndex +:+ ".") in
                  Normal
                    (Some
                       (JObj
                          (set_field "elements"
                             (JArr (splice_in (lastSlideIndex + 1) newSlideSource elements))
                             members)))
              end
          end
      | JStr _ => Throw (not_callable "source.elements.findLastIndex")
      | _ => Throw not_iterable
      end
  | _ => Throw not_iterable
  end.

(** What the loop of [addSlide] leaves of an element. *)
Definition without_time (element : JsVal) : JsVal :=
  match element with
  | JObj members => JObj (delete_field "time" members)
  | _ => element
  end.

(** Neither [undefined] nor [null]. *)
Definition present (v : JsVal) : bool :=
  match v with JUndefined | JNull => false | _ => true end.

(** The caption [addSlide] gives the slide it inserts after index [i]. *)
Definition new_caption (i : nat) : string :=
  "This is the text caption for newly added slide " +:+ pretty i +:+ ".".

End SettingsPanel.

(** Decimal fractions [digits / 10 ^ places], written without trailing
    zeros, stand for the numbers of the slide template; such a number
    prints in plain decimal and survives JSON unchanged. *)
Record Decimal := mkDecimal { digits : Z; places : nat }.

Definition decimal_to_string (d : Decimal) : string :=
  let scale := (10 ^ Z.of_nat (places d))%Z in
  let whole := pretty (Z.abs (digits d) / scale)%Z in
  let fraction := pretty (Z.abs (digits d) mod scale)%Z in
  (if (digits d <? 0)%Z then "-" else "") +:+ whole +:+
  match places d with
  | 0 => ""
  | S _ =>
      "." +:+ String.concat "" (replicate (places d - String.length fraction) "0")
      +:+ fraction
  end.

#[global] Instance Decimal_NumberOps : NumberOps Decimal := {|
  number_truthy d := negb (Z.eqb (digits d) 0);
  number_to_string := decimal_to_string;
  number_json d := Some d;
|}.

Definition sample_createSlide : string → string → JsVal Decimal :=
  createSlide (mkDecimal 1 0) (mkDecimal 4 0) (mkDecimal 5 1) (mkDecimal 35 1).

Definition sample_addSlide : JsVal Decimal → Completion (option (JsVal Decimal)) :=
  addSlide (mkDecimal 1 0) (mkDecimal 4 0) (mkDecimal 5 1) (mkDecimal 35 1).

(** The source of a video with an intro, one slide and an outro. *)
Definition deck_intro : JsVal Decimal :=
  JObj [("name", JStr "Intro"); ("type", JStr "text"); ("time", JNum (mkDecimal 0 0))].
Definition deck_slide : JsVal Decimal :=
  JObj [("name", JStr "Slide-1"); ("type", JStr "composition");
        ("time", JNum (mkDecimal 25 1))].
Definition deck_outro : JsVal Decimal :=
  JObj [("name", JStr "Outro"); ("type", JStr "text")].

Definition deck_members (elements : list (JsVal Decimal)) : Fields Decimal :=
  [("output_format", JStr "mp4"); ("duration", JNum (mkDecimal 12 0));
   ("elements", JArr elements)].

Definition deck : JsVal Decimal := JObj (deck_members [deck_intro; deck_slide; deck_outro]).

(** * Properties *)

(** ** Values *)

Section ValueFacts.
Context {number : Type} `{!NumberOps number}.

#[local] Abbreviation JsVal := (JsVal number).

(** Only an object or an array has an own property to read. *)
Lemma get_defined_object (data : JsVal) (k : string) :
  get data k ≠ JUndefined → truthy data = true ∧ typeof data = "object".
Proof.
  destruct data; simpl; intros Hget; try (exfalso; apply Hget; reflexivity);
    split; reflexivity.
Qed.

Lemma key_in_spec (ks : list string) (k : string) :
  key_in ks k = true ↔ k ∈ ks.
Proof.
  unfold key_in. rewrite existsb_exists, list_elem_of_In. split.
  - intros (x & Hin & Heq). apply String.eqb_eq in Heq. by subst.
  - intros Hin. exists k. split; [done | apply String.eqb_refl].
Qed.

(** The rest object holds exactly the own properties whose key was not
    picked out. *)
Lemma rest_without_spec (ks : list string) (data : JsVal) (k : string) (v : JsVal) :
  (k, v) ∈ own_fields (rest_without ks data) ↔ (k, v) ∈ own_fields data ∧ k ∉ ks.
Proof.
  unfold rest_without. simpl. rewrite !list_elem_of_In, filter_In. simpl.
  rewrite negb_true_iff, <- not_true_iff_false, key_in_spec.
  by rewrite list_elem_of_In.
Qed.

Lemma length_36_nonempty (k : string) : String.length k = 36 → k ≠ "".
Proof. intros Hlen ->. discriminate Hlen. Qed.

(** No member of [Object.prototype] has a name as long as a UUID. *)
Lemma length_36_not_inherited (k : string) :
  String.length k = 36 → key_in object_prototype_keys k = false.
Proof.
  intros Hlen. apply not_true_iff_false. rewrite key_in_spec.
  unfold object_prototype_keys. rewrite !elem_of_cons, elem_of_nil.
  intros H; repeat (destruct H as [-> | H]; [simpl in Hlen; lia |]); done.
Qed.

Lemma contains_suffix (prefix needle : string) : contains needle (prefix +:+ needle).
Proof.
  exists prefix, "". f_equal. induction needle as [|a needle IH]; [done |].
  change (String a needle +:+ "") with (String a (needle +:+ "")). by f_equal.
Qed.

Lemma contains_refl (needle : string) : contains needle needle.
Proof. apply (contains_suffix ""). Qed.

End ValueFacts.

(** ** The tree search *)

Section TreeFacts.
Context {number : Type}.

#[local] Abbreviation ElementState := (ElementState number).

Lemma ElementState_nested_ind (P : ElementState → Prop) :
  (∀ ps, P (mkElementState ps None)) →
  (∀ ps es, Forall P es → P (mkElementState ps (Some es))) →
  ∀ e, P e.
Proof.
  intros Hleaf Hnode. fix IH 1. intros [ps [es|]]; [apply Hnode | apply Hleaf].
  induction es as [|e es IHes]; constructor; [apply IH | exact IHes].
Qed.

Lemma find_app (p : ElementState → bool) (l1 l2 : list ElementState) :
  List.find p (l1 ++ l2) =
  match List.find p l1 with Some x => Some x | None => List.find p l2 end.
Proof.
  induction l1 as [|x l1 IH]; simpl; [done |]. by destruct (p x).
Qed.

Lemma tested_app (p : ElementState → bool) (l1 l2 : list ElementState) :
  tested p (l1 ++ l2) =
  match List.find p l1 with Some _ => tested p l1 | None => l1 ++ tested p l2 end.
Proof.
  induction l1 as [|x l1 IH]; simpl; [done |].
  destruct (p x); [done |]. rewrite IH. by destruct (List.find p l1).
Qed.

Lemma preorder_node ps (es : list ElementState) :
  preorder (mkElementState ps (Some es)) = preorder_list es.
Proof.
  simpl. induction es as [|e es IH]; simpl; [done |]. by rewrite IH.
Qed.

Lemma findElement_in_node p ps (es : list ElementState) :
  findElement_in p (mkElementState ps (Some es)) = scan_elements p es.
Proof. done. Qed.

(** What [List.find] returns, spelled out. *)
Lemma find_first (p : ElementState → bool) (l : list ElementState) e :
  List.find p l = Some e ↔
  ∃ before after, l = before ++ e :: after ∧ p e = true
                  ∧ Forall (λ x, p x = false) before.
Proof.
  induction l as [|x l IH]; simpl.
  - split; [done |]. intros (before & after & Heq & _). by destruct before.
  - destruct (p x) eqn:Hx.
    + split.
      * intros [= <-]. by exists [], l.
      * intros ([|y before] & after & Heq & He & Hbefore); simplify_eq/=; [done |].
        apply Forall_cons in Hbefore as [Hy _]. congruence.
    + rewrite IH. split.
      * intros (before & after & -> & He & Hbefore).
        exists (x :: before), after. by repeat constructor.
      * intros ([|y before] & after & Heq & He & Hbefore); simplify_eq/=.
        { congruence. }
        apply Forall_cons in Hbefore as [_ Hbefore]. by exists before, after.
Qed.

Lemma find_none (p : ElementState → bool) (l : list ElementState) :
  List.find p l = None ↔ Forall (λ x, p x = false) l.
Proof.
  induction l as [|x l IH]; simpl; [by split |].
  rewrite Forall_cons. destruct (p x); [by split; [| intros []] |].
  rewrite IH. tauto.
Qed.

Lemma tested_first (p : ElementState → bool) (before after : list ElementState) e :
  p e = true → Forall (λ x, p x = false) before →
  tested p (before ++ e :: after) = before ++ [e].
Proof.
  intros He. induction 1 as [|x before Hx _ IH]; simpl; [by rewrite He |].
  by rewrite Hx, IH.
Qed.

Lemma tested_none (p : ElementState → bool) (l : list ElementState) :
  Forall (λ x, p x = false) l → tested p l = l.
Proof. induction 1 as [|x l Hx _ IH]; simpl; [done |]. by rewrite Hx, IH. Qed.

Lemma tested_sublist (p : ElementState → bool) (l : list ElementState) e :
  e ∈ tested p l → e ∈ l.
Proof.
  induction l as [|x l IH]; simpl; [done |]. rewrite !elem_of_cons.
  intros [-> | He]; [by left |]. destruct (p x); [by apply elem_of_nil in He |].
  right. by apply IH.
Qed.

Lemma find_ext (p q : ElementState → bool) (l : list ElementState) :
  Forall (λ x, q x = p x) l → List.find q l = List.find p l.
Proof.
  induction 1 as [|x l Hx _ IH]; simpl; [done |]. by rewrite Hx, IH.
Qed.

Lemma tested_ext (p q : ElementState → bool) (l : list ElementState) :
  Forall (λ x, q x = p x) l → tested q l = tested p l.
Proof.
  induction 1 as [|x l Hx _ IH]; simpl; [done |]. by rewrite Hx, IH.
Qed.

Lemma scan_elements_find p (es : list ElementState) :
  Forall (λ e, findElement_in p e = (tested p (preorder e), List.find p (preorder e))) es →
  scan_elements p es = (tested p (preorder_list es), List.find p (preorder_list es)).
Proof.
  induction 1 as [|e es He _ IH]; simpl; [done |].
  destruct (p e); [done |]. rewrite find_app, tested_app, IH.
  destruct e as [ps [nested|]]; [| done].
  rewrite He.
  destruct (List.find p (preorder (mkElementState ps (Some nested)))) eqn:Hfind;
    [done |].
  rewrite (tested_none p (preorder (mkElementState ps (Some nested)))); [done |].
  by apply find_none.
Qed.

(** The search is [List.find] over the preorder listing, and the predicate
    is applied to that listing up to the element found. *)
Lemma findElement_in_find p (s : ElementState) :
  findElement_in p s = (tested p (preorder s), List.find p (preorder s)).
Proof.
  induction s as [ps | ps es IH] using ElementState_nested_ind; [done |].
  by rewrite findElement_in_node, preorder_node, scan_elements_find.
Qed.

(** Everything listed below a state is a smaller tree, so no state is
    listed below itself. *)
Lemma preorder_lighter (s e : ElementState) : e ∈ preorder s → weight e < weight s.
Proof.
  revert e. induction s as [ps | ps es IH] using ElementState_nested_ind;
    intros e He; [by apply elem_of_nil in He |].
  simpl in *. apply Nat.lt_succ_r.
  induction IH as [|x es Hx _ IHes]; [by apply elem_of_nil in He |].
  apply elem_of_cons in He as [-> | He]; [lia |].
  apply elem_of_app in He as [He | He].
  - apply Hx in He. lia.
  - apply IHes in He. lia.
Qed.

Lemma preorder_not_self (s : ElementState) : s ∉ preorder s.
Proof. intros Hin. apply preorder_lighter in Hin. lia. Qed.

End TreeFacts.

(** ** The command/reply bookkeeping *)

Section WrapperFacts.
Context {number : Type} `{!NumberOps number}.
Variable uuid : nat → string.

#[local] Abbreviation JsVal := (JsVal number).
#[local] Abbreviation Fields := (Fields number).
#[local] Abbreviation Sys := (Sys (number := number)).
#[local] Abbreviation Command := (Command (number := number)).

Ltac run_m :=
  unfold settle_reply, resolve, reject, settle, call_if_set, postMessage, emit,
    new_promise, next_uuid, attempt, update, read, throw,
    mbind, M_bind, mret, M_ret; simpl.

(** *** The two gates of the listener *)

Lemma handle_not_object (data : JsVal) (s : Sys) :
  truthy data = false ∨ typeof data ≠ "object" →
  _handleMessage uuid data s = (Normal (), s).
Proof.
  unfold _handleMessage.
  destruct data; simpl; intros [Hfalsy | Htype]; try done;
    rewrite ?orb_true_r, ?Hfalsy; done.
Qed.

Lemma handle_object (data : JsVal) (s : Sys) :
  truthy data = true → typeof data = "object" →
  _handleMessage uuid data s =
    if truthy (get data "id")
    then settle_reply (get data "id") (get data "error")
           (rest_without ["id"; "message"; "error"] data) s
    else dispatch_event uuid (get data "message")
           (rest_without ["id"; "message"; "error"] data) s.
Proof.
  unfold _handleMessage. intros -> ->. simpl.
  by destruct (truthy (get data "id")).
Qed.

Lemma pending_entry (s : Sys) (X : string) (p : nat) :
  wf s → _pendingPromises (this s) !! X = Some p →
  String.length X = 36 ∧ promises (browser s) !! p = Some Pending.
Proof.
  intros [Hentries _] HX. destruct (Hentries X p HX) as [Hlen Hp].
  split; [done |]. by destruct (promises (browser s) !! p) as [[]|].
Qed.

(** *** The reply branch, by what the table holds under the key *)

Lemma settle_reply_rejects (id error args : JsVal) (s : Sys) (key message : string) (p : nat) :
  toPropertyKey id = Some key →
  _pendingPromises (this s) !! key = Some p →
  promises (browser s) !! p = Some Pending →
  truthy error = true → toString error = Some message →
  settle_reply id error args s =
    (Normal (),
     with_this (set_pending (delete key (_pendingPromises (this s))))
       (with_browser
          (set_promises
             (<[p := Settled (Rejected (Error message))]> (promises (browser s)))) s)).
Proof.
  intros Hid Hkey Hp Htruthy Hmessage. unfold settle_reply. rewrite Hid. run_m.
  unfold read_pending. rewrite Hkey, Htruthy, Hmessage. run_m.
  unfold with_this, with_browser; simpl. by rewrite Hp.
Qed.

Lemma settle_reply_resolves (id error args : JsVal) (s : Sys) (key : string) (p : nat) :
  toPropertyKey id = Some key →
  _pendingPromises (this s) !! key = Some p →
  promises (browser s) !! p = Some Pending →
  truthy error = false →
  settle_reply id error args s =
    (Normal (),
     with_this (set_pending (delete key (_pendingPromises (this s))))
       (with_browser
          (set_promises
             (<[p := Settled (Fulfilled args)]> (promises (browser s)))) s)).
Proof.
  intros Hid Hkey Hp Hfalsy. unfold settle_reply. rewrite Hid. run_m.
  unfold read_pending. rewrite Hkey, Hfalsy. run_m.
  unfold with_this, with_browser; simpl. by rewrite Hp.
Qed.

(** Whatever the table holds, a reply whose [id] or truthy [error] has no
    string form makes the listener throw, and nothing changes. *)
Lemma settle_reply_unconvertible (id error args : JsVal) (s : Sys) :
  toPropertyKey id = None
  ∨ (truthy error = true ∧ toString error = None
     ∧ ∃ key, toPropertyKey id = Some key
              ∧ read_pending (_pendingPromises (this s)) key ≠ Absent) →
  settle_reply id error args s = (Throw cannot_convert, s).
Proof.
  unfold settle_reply. intros [-> | (Htruthy & Hmessage & key & -> & Hread)]; [done |].
  run_m. destruct (read_pending _ key); [| | done]; by rewrite Htruthy, Hmessage.
Qed.

Lemma settle_reply_inherited (id error args : JsVal) (s : Sys) (key : string) :
  toPropertyKey id = Some key →
  _pendingPromises (this s) !! key = None →
  key_in object_prototype_keys key = true →
  (truthy error = true → is_Some (toString error)) →
  settle_reply id error args s =
    (Throw (not_a_function (if truthy error then "reject" else "resolve")), s).
Proof.
  intros Hid Hkey Hproto Herror. unfold settle_reply. rewrite Hid. run_m.
  unfold read_pending. rewrite Hkey, Hproto.
  destruct (truthy error); [| done]. by destruct (Herror eq_refl) as [message ->].
Qed.

Lemma settle_reply_absent (id error args : JsVal) (s : Sys) (key : string) :
  toPropertyKey id = Some key →
  _pendingPromises (this s) !! key = None →
  key_in object_prototype_keys key = false →
  settle_reply id error args s = (Normal (), s).
Proof.
  intros Hid Hkey Hproto. unfold settle_reply. rewrite Hid. run_m.
  unfold read_pending. by rewrite Hkey, Hproto.
Qed.

(** A reply that names a pending command and asks for a settlement. *)
Lemma handle_reply (s : Sys) (X : string) (p : nat) (data : JsVal) (outcome : Settlement) :
  wf s →
  _pendingPromises (this s) !! X = Some p →
  get data "id" = JStr X →
  requested data = Some outcome →
  _handleMessage uuid data s =
    (Normal (),
     with_this (set_pending (delete X (_pendingPromises (this s))))
       (with_browser
          (set_promises (<[p := Settled outcome]> (promises (browser s)))) s)).
Proof.
  intros Hwf HX Hid Hrequested. destruct (pending_entry s X p Hwf HX) as [Hlen Hp].
  destruct (get_defined_object data "id") as [Htruthy Htype]; [by rewrite Hid |].
  rewrite handle_object, Hid by done. simpl.
  destruct (String.eqb_spec X "") as [-> | _]; [by simpl in Hlen |]. simpl.
  unfold requested in Hrequested. destruct (truthy (get data "error")) eqn:Herror.
  - destruct (toString (get data "error")) as [message|] eqn:Hmessage; [| done].
    injection Hrequested as <-. by apply settle_reply_rejects with (key := X).
  - injection Hrequested as <-. by apply settle_reply_resolves with (key := X).
Qed.

Lemma handle_reply_promise (s : Sys) (X : string) (p : nat) (data : JsVal)
    (outcome : Settlement) :
  wf s →
  _pendingPromises (this s) !! X = Some p →
  get data "id" = JStr X →
  requested data = Some outcome →
  promises (browser (_handleMessage uuid data s).2) !! p = Some (Settled outcome).
Proof.
  intros Hwf HX Hid Hrequested. destruct (pending_entry s X p Hwf HX) as [_ Hp].
  rewrite (handle_reply s X p data outcome) by done. simpl.
  apply list_lookup_insert_eq. by eapply lookup_lt_Some.
Qed.

(** A reply that names a pending command and whose truthy [error] has no
    string form: the listener throws before it settles anything. *)
Lemma handle_reply_unconvertible (s : Sys) (X : string) (p : nat) (data : JsVal) :
  wf s →
  _pendingPromises (this s) !! X = Some p →
  get data "id" = JStr X →
  requested data = None →
  _handleMessage uuid data s = (Throw cannot_convert, s).
Proof.
  intros Hwf HX Hid Hrequested. destruct (pending_entry s X p Hwf HX) as [Hlen Hp].
  destruct (get_defined_object data "id") as [Htruthy Htype]; [by rewrite Hid |].
  rewrite handle_object, Hid by done. simpl.
  destruct (String.eqb_spec X "") as [-> | _]; [by simpl in Hlen |]. simpl.
  unfold requested in Hrequested. destruct (truthy (get data "error")) eqn:Herror; [| done].
  destruct (toString (get data "error")) eqn:Hmessage; [done |].
  apply settle_reply_unconvertible. right. split; [done |]. split; [done |].
  exists X. split; [done |]. unfold read_pending. by rewrite HX.
Qed.

(** C1. A reply carrying the identifier [X] of a pending command, and
    asking for a settlement, settles the promise of that entry, which was
    pending, and no other promise; it deletes entry [X] and no other entry;
    nothing else changes.  Handling the same reply once more returns
    normally and changes nothing. *)
Theorem reply_settles_once (s : Sys) (X : string) (p : nat) (data : JsVal)
    (outcome : Settlement) :
  wf s →
  _pendingPromises (this s) !! X = Some p →
  get data "id" = JStr X →
  requested data = Some outcome →
  let s' :=
    with_this (set_pending (delete X (_pendingPromises (this s))))
      (with_browser
         (set_promises (<[p := Settled outcome]> (promises (browser s)))) s) in
  _handleMessage uuid data s = (Normal (), s')
  ∧ promises (browser s) !! p = Some Pending
  ∧ promises (browser s') !! p = Some (Settled outcome)
  ∧ (∀ q, q ≠ p → promises (browser s') !! q = promises (browser s) !! q)
  ∧ _pendingPromises (this s') !! X = None
  ∧ (∀ k, k ≠ X → _pendingPromises (this s') !! k = _pendingPromises (this s) !! k)
  ∧ _handleMessage uuid data s' = (Normal (), s').
Proof.
  intros Hwf HX Hid Hrequested s'.
  destruct (pending_entry s X p Hwf HX) as [Hlen Hp].
  split; [by apply handle_reply |]. split; [done |].
  split. { simpl. apply list_lookup_insert_eq. by eapply lookup_lt_Some. }
  split. { intros q Hq. simpl. by apply list_lookup_insert_ne. }
  split. { simpl. apply lookup_delete_eq. }
  split. { intros k Hk. simpl. by apply lookup_delete_ne. }
  destruct (get_defined_object data "id") as [Htruthy Htype]; [by rewrite Hid |].
  rewrite handle_object, Hid by done. simpl.
  destruct (String.eqb_spec X "") as [-> | _]; [by simpl in Hlen |]. simpl.
  apply settle_reply_absent with (key := X); simpl.
  - done.
  - apply lookup_delete_eq.
  - by apply length_36_not_inherited.
Qed.

(** C3 (amended). A reply [{id: X, error: E}] to a pending command [X]
    takes the error branch exactly when [E] is truthy.  It then rejects the
    promise of that command with an [Error] whose message is [E] as a
    string (a truthy [E] without a string form makes the listener throw
    instead, and nothing is settled).  For [E = "bad input"] the message is
    "bad input", and the promise returned by the command method is rejected
    with that message behind the prefix of the method.  When [E] is falsy
    the promise is fulfilled. *)
Theorem error_reply_rejects (s : Sys) (X : string) (p : nat) (data : JsVal) :
  wf s →
  _pendingPromises (this s) !! X = Some p →
  get data "id" = JStr X →
  let error := get data "error" in
  let settled := promises (browser (_handleMessage uuid data s).2) !! p in
  (truthy error = true →
     match toString error with
     | Some message =>
         settled = Some (Settled (Rejected (Error message)))
         ∧ ∀ c : Command, ∃ reason,
             method_settlement c (Rejected (Error message)) = Rejected reason
             ∧ error_message reason = failure_prefix c +:+ message
             ∧ contains message (error_message reason)
     | None => _handleMessage uuid data s = (Throw cannot_convert, s)
     end)
  ∧ (error = JStr "bad input" →
     settled = Some (Settled (Rejected (Error "bad input")))
     ∧ contains "bad input" (error_message (Error "bad input"))
     ∧ ∀ c : Command, ∃ reason,
         method_settlement c (Rejected (Error "bad input")) = Rejected reason
         ∧ contains "bad input" (error_message reason))
  ∧ (truthy error = false →
     settled =
       Some (Settled (Fulfilled (rest_without ["id"; "message"; "error"] data)))).
Proof.
  intros Hwf HX Hid error settled. split; [| split].
  - intros Htruthy. destruct (toString error) as [message|] eqn:Hmessage.
    + split.
      * apply (handle_reply_promise s X p data); try done.
        unfold requested. fold error. by rewrite Htruthy, Hmessage.
      * intros c. eexists. split; [done |]. split; [done |]. apply contains_suffix.
    + apply (handle_reply_unconvertible s X p data); try done.
      unfold requested. fold error. by rewrite Htruthy, Hmessage.
  - intros Herror. split; [| split].
    + apply (handle_reply_promise s X p data); try done.
      unfold requested. fold error. by rewrite Herror.
    + apply contains_refl.
    + intros c. eexists. split; [done |]. apply contains_suffix.
  - intros Hfalsy. apply (handle_reply_promise s X p data); try done.
    unfold requested. fold error. by rewrite Hfalsy.
Qed.

(** C4. A reply to a pending command [X] whose [error] is absent (or
    falsy) fulfils the promise of that command with the rest object: the
    own properties of the payload other than [id], [message] and [error].
    For the payload [{id: X, value: v}] that object is [{value: v}]. *)
Theorem plain_reply_resolves (s : Sys) (X : string) (p : nat) (data : JsVal) :
  wf s →
  _pendingPromises (this s) !! X = Some p →
  get data "id" = JStr X →
  truthy (get data "error") = false →
  let args := rest_without ["id"; "message"; "error"] data in
  promises (browser (_handleMessage uuid data s).2) !! p = Some (Settled (Fulfilled args))
  ∧ (∀ k v, (k, v) ∈ own_fields args ↔
            (k, v) ∈ own_fields data ∧ k ∉ ["id"; "message"; "error"])
  ∧ (∀ v, data = JObj [("id", JStr X); ("value", v)] → args = JObj [("value", v)]).
Proof.
  intros Hwf HX Hid Hfalsy args. split; [| split].
  - apply (handle_reply_promise s X p data); try done.
    unfold requested. by rewrite Hfalsy.
  - intros k v. apply rest_without_spec.
  - by intros v ->.
Qed.

(** *** Events *)

Lemma handle_event (data : JsVal) (s : Sys) :
  truthy data = true → typeof data = "object" → truthy (get data "id") = false →
  _handleMessage uuid data s =
    dispatch_event uuid (get data "message")
      (rest_without ["id"; "message"; "error"] data) s.
Proof. intros Htruthy Htype Hid. by rewrite handle_object, Hid. Qed.

(** An event other than [onReady] and [onStateChange] whose member is not
    assigned, or whose name is not the name of an event, does nothing. *)
Lemma dispatch_unhandled (name : string) (args : JsVal) (s : Sys) :
  name ≠ "onReady" → name ≠ "onStateChange" →
  handler_for name (handlers (this s)) = None →
  dispatch_event uuid (JStr name) args s = (Normal (), s).
Proof.
  intros HnotReady HnotState. unfold handler_for, dispatch_event.
  destruct (String.eqb_spec name "onReady"); [done |].
  do 7 (destruct (String.eqb name _); [intros Hf; run_m; by rewrite Hf |]).
  destruct (String.eqb_spec name "onStateChange"); done.
Qed.

(** C6 (amended). An event [{message: "onPlay"}] with the [onPlay] member
    assigned calls that function once, with no arguments, and changes
    nothing else.  An event whose message is not a string, or names no
    event, or names an event other than [onReady] and [onStateChange]
    whose member is not assigned, has no effect.  [onStateChange] with no
    member assigned still replaces the state mirror. *)
Theorem event_dispatch (s : Sys) (data : JsVal) :
  truthy data = true → typeof data = "object" → truthy (get data "id") = false →
  (∀ f, get data "message" = JStr "onPlay" →
        onPlay (handlers (this s)) = Some f →
        _handleMessage uuid data s =
          (Normal (), with_browser (λ b, set_trace (trace b ++ [Call f []]) b) s))
  ∧ (∀ name, get data "message" = JStr name →
        name ≠ "onReady" → name ≠ "onStateChange" →
        handler_for name (handlers (this s)) = None →
        _handleMessage uuid data s = (Normal (), s))
  ∧ ((∀ name, get data "message" ≠ JStr name) →
        _handleMessage uuid data s = (Normal (), s))
  ∧ (get data "message" = JStr "onStateChange" →
        onStateChange (handlers (this s)) = None →
        _handleMessage uuid data s =
          (Normal (),
           with_this
             (set_state (get (rest_without ["id"; "message"; "error"] data) "state")) s)).
Proof.
  intros Htruthy Htype Hid. rewrite handle_event by done. repeat split.
  - intros f -> Hf. unfold dispatch_event. simpl. run_m. by rewrite Hf.
  - intros name -> ???. by apply dispatch_unhandled.
  - intros Hname. destruct (get data "message"); try done. by destruct (Hname s0).
  - intros -> Hf. unfold dispatch_event. simpl. run_m. by rewrite Hf.
Qed.

(** *** Replies that match nothing *)

(** A payload that is absent or not an object, and a reply whose key is
    neither in the table nor a member of [Object.prototype], are dropped. *)
Lemma unmatched_dropped (data : JsVal) (s : Sys) :
  (truthy data = false ∨ typeof data ≠ "object")
  ∨ (truthy (get data "id") = true
     ∧ ∃ key, toPropertyKey (get data "id") = Some key
              ∧ _pendingPromises (this s) !! key = None
              ∧ key_in object_prototype_keys key = false) →
  _handleMessage uuid data s = (Normal (), s).
Proof.
  intros [Hnot | (Hid & key & Hkey & Hlookup & Hproto)]; [by apply handle_not_object |].
  destruct (get_defined_object data "id") as [Htruthy Htype].
  { intros Hundef. by rewrite Hundef in Hid. }
  rewrite handle_object, Hid by done. by apply settle_reply_absent with (key := key).
Qed.

(** A reply whose key is a member of [Object.prototype] and not in the
    table changes nothing either, but the listener throws. *)
Lemma inherited_throws (data : JsVal) (s : Sys) (key : string) :
  truthy (get data "id") = true →
  toPropertyKey (get data "id") = Some key →
  _pendingPromises (this s) !! key = None →
  key_in object_prototype_keys key = true →
  ∃ e, _handleMessage uuid data s = (Throw e, s) ∧ error_name e = "TypeError".
Proof.
  intros Hid Hkey Hlookup Hproto.
  destruct (get_defined_object data "id") as [Htruthy Htype].
  { intros Hundef. by rewrite Hundef in Hid. }
  rewrite handle_object, Hid by done.
  unfold settle_reply. rewrite Hkey. run_m. unfold read_pending.
  rewrite Hlookup, Hproto. repeat case_match; by eexists.
Qed.

(** C7, with the input where the code departs from it.  A payload that is
    absent or not an object is dropped.  A reply whose identifier is the
    key of no entry leaves everything as it was; it is dropped when the key
    is no member of [Object.prototype], and makes the listener throw a
    [TypeError] when it is one.  So the reply [{id: "constructor"}], which
    matches no pending command of a wrapper just constructed, is not
    dropped: the listener throws. *)
Theorem inherited_identifier_throws :
  (∀ (data : JsVal) (s : Sys),
     truthy data = false ∨ typeof data ≠ "object" →
     _handleMessage uuid data s = (Normal (), s))
  ∧ (∀ (data : JsVal) (s : Sys) (key : string),
       truthy (get data "id") = true →
       toPropertyKey (get data "id") = Some key →
       _pendingPromises (this s) !! key = None →
       if key_in object_prototype_keys key
       then ∃ e, _handleMessage uuid data s = (Throw e, s) ∧ error_name e = "TypeError"
       else _handleMessage uuid data s = (Normal (), s))
  ∧ (∀ (connected : bool) (mode : Mode) (publicToken : string),
       _pendingPromises (this (constructor (number := number) connected mode publicToken))
         !! "constructor" = None
       ∧ _handleMessage uuid (JObj [("id", JStr "constructor")])
           (constructor (number := number) connected mode publicToken) =
         (Throw (TypeError "pendingPromise.resolve is not a function"),
          constructor (number := number) connected mode publicToken)).
Proof.
  split; [| split].
  - intros data s Hnot. apply unmatched_dropped. by left.
  - intros data s key Hid Hkey Hlookup.
    destruct (key_in object_prototype_keys key) eqn:Hproto.
    + by apply inherited_throws with (key := key).
    + apply unmatched_dropped. right. split; [done |]. by exists key.
  - done.
Qed.

(** *** Disposal *)

(** C8. [dispose] returns normally; afterwards the listener is no longer
    registered, the iframe has no parent (hence no content window) and an
    empty [src], and the table is empty.  The promises are untouched, so
    every promise that was pending still is, and nothing was posted or
    called. *)
Theorem dispose_clears_without_settling (s : Sys) :
  ∃ s', dispose s = (Normal (), s')
    ∧ listening (browser s') = false
    ∧ attached (_iframe (this s')) = false
    ∧ contentWindow s' = false
    ∧ assoc_attr "src" (attributes (_iframe (this s'))) = Some ""
    ∧ _pendingPromises (this s') = ∅
    ∧ promises (browser s') = promises (browser s)
    ∧ (∀ p, promises (browser s) !! p = Some Pending →
            promises (browser s') !! p = Some Pending)
    ∧ trace (browser s') = trace (browser s).
Proof.
  eexists. split; [reflexivity |]. simpl. repeat split; try done.
  induction (attributes (_iframe (this s))) as [|[n v] l IH];
    cbn [set_attr assoc_attr].
  - by rewrite String.eqb_refl.
  - destruct (String.eqb_spec n "src") as [-> | Hn]; cbn [assoc_attr].
    + by rewrite String.eqb_refl.
    + destruct (String.eqb_spec "src" n); [congruence | done].
Qed.

(** *** Sending *)

Lemma sendCommand_not_ready (s : Sys) (message : Fields) (payload : option Fields) :
  ready (this s) = false →
  _sendCommand uuid message payload s = (Throw not_ready_error, s).
Proof. intros Hready. unfold _sendCommand. run_m. by rewrite Hready. Qed.

(** C2. While [ready] is false, [_sendCommand] throws the not-ready error
    and leaves everything as it was: no message is posted, no promise is
    created, no entry is added.  Through [cacheAsset] the exception
    reaches the caller; an [async] method turns it into a promise that is
    rejected from the start; either way nothing changes. *)
Theorem sendCommand_before_ready (s : Sys) (message : Fields) (payload : option Fields) :
  ready (this s) = false →
  _sendCommand uuid message payload s = (Throw not_ready_error, s)
  ∧ (∀ c : Command, is_async c = false → call uuid c s = (Throw not_ready_error, s))
  ∧ (∀ c : Command, is_async c = true →
       call uuid c s = (Normal (RejectedWith not_ready_error), s)).
Proof.
  intros Hready. split; [by apply sendCommand_not_ready |].
  split; intros c Hc; unfold call; rewrite Hc; run_m;
    by rewrite sendCommand_not_ready.
Qed.

Lemma sendCommand_ready (s : Sys) (message : Fields) (payload : option Fields) :
  ready (this s) = true →
  _sendCommand uuid message payload s =
    (Normal (length (promises (browser s))),
     mkSys
       (set_pending
          (<[uuid (uuid_calls (browser s)) := length (promises (browser s))]>
             (_pendingPromises (this s))) (this s))
       (mkBrowser (promises (browser s) ++ [Pending]) (listening (browser s))
          (element_connected (browser s)) (element_overflow (browser s))
          (S (uuid_calls (browser s)))
          (trace (browser s) ++
           if contentWindow s
           then [PostMessage
                   (JObj (spread
                            (spread [("id", JStr (uuid (uuid_calls (browser s))))]
                               (json_fields message))
                            (default [] payload))) "*"]
           else []))).
Proof.
  intros Hready. unfold _sendCommand. run_m. rewrite Hready. simpl.
  unfold contentWindow. simpl.
  destruct (attached (_iframe (this s)) && element_connected (browser s));
    simpl; [done |]. by rewrite app_nil_r.
Qed.

(** The synchronous part of a method either sends, or (before readiness)
    leaves everything as it was. *)
Lemma call_state (c : Command) (s : Sys) :
  (call uuid c s).2 =
    if ready (this s)
    then (_sendCommand uuid (command_message c) (command_payload c) s).2
    else s.
Proof.
  unfold call. destruct (ready (this s)) eqn:Hready.
  - destruct (is_async c); run_m; by rewrite sendCommand_ready.
  - destruct (is_async c); run_m;
      by rewrite sendCommand_not_ready.
Qed.

(** *** What no action touches: the mode *)

Ltac crush_handler :=
  unfold _handleMessage, dispatch_event, setMode, call, _sendCommand, dispose;
  run_m; repeat case_match; simplify_eq/=; try done.

Lemma handle_mode (data : JsVal) (s : Sys) :
  mode (this (_handleMessage uuid data s).2) = mode (this s).
Proof. crush_handler. Qed.

Lemma perform_mode (s : Sys) (a : Action) :
  mode (this (perform uuid s a)) = mode (this s).
Proof.
  destruct a as [data | c | | h | connected]; simpl; try done.
  - destruct (listening (browser s)); [apply handle_mode | done].
  - rewrite call_state. destruct (ready (this s)) eqn:Hready; [| done].
    by rewrite sendCommand_ready.
Qed.

Lemma run_mode (s : Sys) (actions : list Action) :
  mode (this (run uuid s actions)) = mode (this s).
Proof.
  revert s. induction actions as [|a actions IH]; intros s; [done |].
  change (run uuid s (a :: actions)) with (run uuid (perform uuid s a) actions).
  by rewrite IH, perform_mode.
Qed.

(** The [onReady] case, step by step. *)
Lemma dispatch_ready (args : JsVal) (s : Sys) :
  dispatch_event uuid (JStr "onReady") args s =
    match setMode uuid (mode (this s)) (with_this (set_ready true) s) with
    | (Normal _, s2) => call_if_set (onReady (handlers (this s2))) [] s2
    | (Throw e, s2) => (Throw e, s2)
    end.
Proof. reflexivity. Qed.

(** C9 (amended).  In a wrapper constructed with mode [m], whatever
    happened since, an [onReady] event first sets [ready], then runs
    [setMode(m)] (which now passes the readiness test, registers a pending
    promise under a new identifier and posts [{id, message: "setMode",
    mode: m}] if the iframe has a content window), and only then calls the
    [onReady] member if one is assigned: when that call is made the flag
    is set and the command has been issued. *)
Theorem ready_event_sets_mode (connected : bool) (m : Mode) (publicToken : string)
    (actions : list Action) (data : JsVal) :
  truthy (get data "id") = false → get data "message" = JStr "onReady" →
  let s := run uuid (constructor connected m publicToken) actions in
  let id := uuid (uuid_calls (browser s)) in
  let p := length (promises (browser s)) in
  let command :=
    JObj [("id", JStr id); ("message", JStr "setMode"); ("mode", JStr (mode_name m))] in
  let posted := if contentWindow s then [PostMessage command "*"] else [] in
  let s1 := with_this (set_ready true) s in
  ∃ s2 s3,
    setMode uuid (mode (this s1)) s1 = (Normal (Follows p (SetMode m)), s2)
    ∧ ready (this s2) = true
    ∧ trace (browser s2) = trace (browser s) ++ posted
    ∧ call_if_set (onReady (handlers (this s2))) [] s2 = (Normal (), s3)
    ∧ _handleMessage uuid data s = (Normal (), s3)
    ∧ ready (this s3) = true
    ∧ _pendingPromises (this s3) = <[id := p]> (_pendingPromises (this s))
    ∧ promises (browser s3) = promises (browser s) ++ [Pending]
    ∧ trace (browser s3) =
        trace (browser s) ++ posted
        ++ (match onReady (handlers (this s)) with
            | Some f => [Call f []]
            | None => []
            end).
Proof.
  intros Hid Hmsg s id p command posted s1.
  destruct (get_defined_object data "message") as [Htruthy Htype]; [by rewrite Hmsg |].
  assert (mode (this s) = m) as Hmode by apply run_mode.
  pose proof (sendCommand_ready s1 (command_message (SetMode m)) None eq_refl) as Hsend.
  assert (setMode uuid (mode (this s1)) s1 =
          (Normal (Follows p (SetMode m)),
           (_sendCommand uuid (command_message (SetMode m)) None s1).2)) as HsetMode.
  { change (mode (this s1)) with (mode (this s)). rewrite Hmode.
    unfold setMode, call. cbn [is_async command_payload].
    unfold mbind, M_bind, attempt. by rewrite Hsend. }
  set (s2 := (_sendCommand uuid (command_message (SetMode m)) None s1).2) in *.
  exists s2, (call_if_set (onReady (handlers (this s2))) [] s2).2.
  split; [exact HsetMode |].
  assert (trace (browser s2) = trace (browser s) ++ posted) as Htrace.
  { subst s2 posted. rewrite Hsend. simpl. unfold contentWindow. simpl.
    by destruct (attached _ && _). }
  split. { subst s2. by rewrite Hsend. }
  split; [exact Htrace |]. split.
  { by destruct (onReady (handlers (this s2))). }
  split.
  { rewrite handle_event, Hmsg, dispatch_ready by done.
    change (with_this (set_ready true) s) with s1.
    change (mode (this s)) with (mode (this s1)). rewrite HsetMode.
    by destruct (onReady (handlers (this s2))). }
  assert (handlers (this s2) = handlers (this s)) as Hhandlers.
  { subst s2. by rewrite Hsend. }
  rewrite Hhandlers.
  destruct (onReady (handlers (this s))); simpl; rewrite ?Htrace, ?app_nil_r;
    subst s2; rewrite Hsend; simpl; by rewrite <- ?app_assoc.
Qed.

(** *** At most one settlement, and none after disposal *)

(** A settled promise stays as it is: [resolve] and [reject] act on a
    pending promise only. *)
Lemma handle_keeps_settled (data : JsVal) (s : Sys) (p : nat) (o : Settlement) :
  promises (browser s) !! p = Some (Settled o) →
  promises (browser (_handleMessage uuid data s).2) !! p = Some (Settled o).
Proof.
  intros Hp. crush_handler; try (by apply lookup_app_l_Some).
  all: match goal with
       | |- context [promises (browser ?s') !! ?q] =>
           destruct (promises (browser s') !! q) as [[|]|] eqn:Hq; simpl; try done;
           destruct (decide (q = p)) as [-> | Hne];
             [congruence | by rewrite list_lookup_insert_ne]
       end.
Qed.

Lemma perform_keeps_settled (s : Sys) (a : Action) (p : nat) (o : Settlement) :
  promises (browser s) !! p = Some (Settled o) →
  promises (browser (perform uuid s a)) !! p = Some (Settled o).
Proof.
  intros Hp. destruct a as [data | c | | h | connected]; simpl; try done.
  - destruct (listening (browser s)); [by apply handle_keeps_settled | done].
  - rewrite call_state. destruct (ready (this s)) eqn:Hready; [| done].
    rewrite sendCommand_ready by done. simpl. by apply lookup_app_l_Some.
Qed.

Lemma run_keeps_settled (s : Sys) (actions : list Action) (p : nat) (o : Settlement) :
  promises (browser s) !! p = Some (Settled o) →
  promises (browser (run uuid s actions)) !! p = Some (Settled o).
Proof.
  revert s. induction actions as [|a actions IH]; intros s Hp; [done |].
  apply IH. by apply perform_keeps_settled.
Qed.

(** Once the listener is removed (and [dispose] removes it), nothing
    settles a promise any more: what is pending stays pending, whatever
    happens next. *)
Lemma perform_without_listener (s : Sys) (a : Action) (p : nat) :
  listening (browser s) = false →
  promises (browser s) !! p = Some Pending →
  listening (browser (perform uuid s a)) = false
  ∧ promises (browser (perform uuid s a)) !! p = Some Pending.
Proof.
  intros Hlistening Hp. destruct a as [data | c | | h | connected]; simpl; try done.
  - by rewrite Hlistening.
  - rewrite call_state. destruct (ready (this s)) eqn:Hready; [| done].
    rewrite sendCommand_ready by done. simpl. split; [done |].
    by apply lookup_app_l_Some.
Qed.

Lemma run_without_listener (s : Sys) (actions : list Action) (p : nat) :
  listening (browser s) = false →
  promises (browser s) !! p = Some Pending →
  promises (browser (run uuid s actions)) !! p = Some Pending.
Proof.
  revert s. induction actions as [|a actions IH]; intros s Hlistening Hp; [done |].
  destruct (perform_without_listener s a p Hlistening Hp) as [Hlistening' Hp'].
  by apply IH.
Qed.

Lemma disposed_never_settles (s : Sys) (actions : list Action) (p : nat) :
  promises (browser s) !! p = Some Pending →
  promises (browser (run uuid (dispose s).2 actions)) !! p = Some Pending.
Proof. intros Hp. by apply run_without_listener. Qed.

(** *** The invariant holds in every state a wrapper can reach *)

#[local] Abbreviation PromiseState := (PromiseState (number := number)).

Lemma wf_table_empty (ps : list PromiseState) : wf_table ps ∅.
Proof. split; apply map_Forall_empty. Qed.

Lemma wf_table_send (ps : list PromiseState) (table : gmap string nat) (id : string) :
  String.length id = 36 →
  wf_table ps table → wf_table (ps ++ [Pending]) (<[id := length ps]> table).
Proof.
  intros Hid [Hentries Hinj].
  assert (∀ k q, table !! k = Some q → q < length ps) as Hbound.
  { intros k q Hk. destruct (Hentries k q Hk) as [_ Hq].
    destruct (ps !! q) eqn:Hlookup; [| done]. by eapply lookup_lt_Some. }
  split.
  - apply map_Forall_insert_2.
    + split; [done |]. by rewrite list_lookup_middle.
    + intros k q Hk. destruct (Hentries k q Hk) as [Hlen Hq]. split; [done |].
      rewrite lookup_app_l; [done |]. by eapply Hbound.
  - intros k q Hk k' q' Hk' ->.
    apply lookup_insert_Some in Hk as [[<- <-] | [Hne Hk]];
      apply lookup_insert_Some in Hk' as [[<- Heq] | [Hne' Hk']]; try done.
    + apply Hbound in Hk'. lia.
    + apply Hbound in Hk. lia.
    + by eapply Hinj.
Qed.

Lemma wf_table_settle (ps : list PromiseState) (table : gmap string nat)
    (X : string) (p : nat) (o : Settlement) :
  table !! X = Some p →
  wf_table ps table → wf_table (<[p := Settled o]> ps) (delete X table).
Proof.
  intros HX [Hentries Hinj]. split.
  - intros k q Hk. apply lookup_delete_Some in Hk as [Hne Hk].
    destruct (Hentries k q Hk) as [Hlen Hq]. split; [done |].
    rewrite list_lookup_insert_ne; [done |].
    intros <-. apply Hne. by eapply Hinj.
  - intros k q Hk k' q' Hk' ->.
    apply lookup_delete_Some in Hk as [_ Hk].
    apply lookup_delete_Some in Hk' as [_ Hk']. by eapply Hinj.
Qed.

Hypothesis uuid_length : ∀ n, String.length (uuid n) = 36.

Lemma wf_sendCommand (s : Sys) (message : Fields) (payload : option Fields) :
  wf s → wf (_sendCommand uuid message payload s).2.
Proof.
  intros Hwf. destruct (ready (this s)) eqn:Hready.
  - rewrite sendCommand_ready by done. by apply wf_table_send.
  - by rewrite sendCommand_not_ready.
Qed.

Lemma wf_call_if_set (f : option Callback) (args : list JsVal) (s : Sys) :
  wf s → wf (call_if_set f args s).2.
Proof. intros Hwf. destruct f; exact Hwf. Qed.

Lemma wf_handle (data : JsVal) (s : Sys) :
  wf s → wf (_handleMessage uuid data s).2.
Proof.
  intros Hwf.
  destruct (truthy data) eqn:Htruthy; [| by rewrite handle_not_object by auto].
  destruct (String.eqb_spec (typeof data) "object") as [Htype | Htype];
    [| by rewrite handle_not_object by auto].
  rewrite handle_object by done.
  destruct (truthy (get data "id")) eqn:Hid.
  - unfold settle_reply.
    destruct (toPropertyKey (get data "id")) as [key|] eqn:Hkey; [| done]. run_m.
    unfold read_pending.
    destruct (_pendingPromises (this s) !! key) as [p|] eqn:Hlookup.
    + destruct (pending_entry s key p Hwf Hlookup) as [_ Hp].
      destruct (truthy (get data "error")); [destruct (toString (get data "error")) |];
        run_m; try done; unfold with_this, with_browser; simpl; rewrite Hp;
        by apply wf_table_settle.
    + destruct (key_in object_prototype_keys key); [| done].
      by repeat case_match.
  - destruct (get data "message") as [| | | |name| | |]; try done.
    destruct (String.eqb_spec name "onReady") as [-> | HnotReady].
    { rewrite dispatch_ready. unfold setMode. 
      pose proof (call_state (SetMode (mode (this s))) (with_this (set_ready true) s)) as Hcall.
      destruct (call uuid _ _) as [[r | e] s2] eqn:Hc; simpl in Hcall; subst s2.
      - apply wf_call_if_set. by apply wf_sendCommand.
      - by apply wf_sendCommand. }
    unfold dispatch_event. destruct (String.eqb_spec name "onReady"); [done |].
    repeat case_match; run_m; repeat case_match; simplify_eq/=; done.
Qed.

Lemma wf_perform (s : Sys) (a : Action) : wf s → wf (perform uuid s a).
Proof.
  intros Hwf. destruct a as [data | c | | h | connected]; simpl.
  - destruct (listening (browser s)); [by apply wf_handle | done].
  - rewrite call_state. destruct (ready (this s)); [by apply wf_sendCommand | done].
  - apply wf_table_empty.
  - exact Hwf.
  - exact Hwf.
Qed.

Lemma wf_constructor (connected : bool) (m : Mode) (publicToken : string) :
  wf (constructor (number := number) connected m publicToken).
Proof. apply wf_table_empty. Qed.

(** Every run of a constructed wrapper ends in a state that satisfies the
    invariant. *)
Lemma wf_run (connected : bool) (m : Mode) (publicToken : string)
    (actions : list Action) :
  wf (run uuid (constructor connected m publicToken) actions).
Proof.
  generalize (wf_constructor connected m publicToken).
  generalize (constructor (number := number) connected m publicToken).
  induction actions as [|a actions IH]; intros s Hwf; [done |].
  apply IH. by apply wf_perform.
Qed.

End WrapperFacts.

(** ** The claims about the tree search *)

(** C5. [findElement] scans the state it is given, or [this.state] when it
    is given none, and returns nothing when there is neither.  Over a state
    [s] its result is the first element of the preorder listing of [s] that
    satisfies the predicate: everything listed before the result fails the
    predicate, and the result is nothing exactly when every listed element
    fails it.  The predicate is applied to the listing in order, up to the
    element found, so each element is tested before the elements below it,
    and those before its later siblings.  In the snapshot with
    A→[B, C→[D]] the listing is A, B, C, D; a predicate matching only D
    is applied to A, B, C, D and finds D, and a predicate matching nothing
    finds nothing. *)
Theorem findElement_first_in_preorder :
  (∀ (number : Type) (this_state : option (ElementState number))
     (predicate : ElementState number → bool) (state : option (ElementState number)),
     match scanned this_state state with
     | None => findElement this_state predicate state = ([], None)
     | Some s =>
         findElement this_state predicate state
         = (tested predicate (preorder s), List.find predicate (preorder s))
         ∧ (∀ e, (findElement this_state predicate state).2 = Some e ↔
                 ∃ before after,
                   preorder s = before ++ e :: after
                   ∧ predicate e = true
                   ∧ Forall (λ x, predicate x = false) before)
         ∧ (∀ e before after,
              preorder s = before ++ e :: after → predicate e = true →
              Forall (λ x, predicate x = false) before →
              (findElement this_state predicate state).1 = before ++ [e])
         ∧ ((findElement this_state predicate state).2 = None ↔
            Forall (λ x, predicate x = false) (preorder s))
     end)
  ∧ (∀ (number : Type) ps (es : list (ElementState number)),
       preorder (mkElementState ps (Some es)) = flat_map (λ e, e :: preorder e) es)
  ∧ (∀ (number : Type) ps, preorder (mkElementState (number := number) ps None) = [])
  ∧ preorder snapshot = [elA; elB; elC; elD]
  ∧ List.filter (is_named "D") (preorder snapshot) = [elD]
  ∧ findElement None (is_named "D") (Some snapshot) = ([elA; elB; elC; elD], Some elD)
  ∧ findElement (Some snapshot) (is_named "D") None = ([elA; elB; elC; elD], Some elD)
  ∧ findElement None (is_named "D") (Some elA) = ([elB; elC; elD], Some elD)
  ∧ findElement None (is_named "B") (Some snapshot) = ([elA; elB], Some elB)
  ∧ (findElement None (λ _, false) (Some snapshot)).2 = None
  ∧ (findElement (Some snapshot) (λ _, false) None).2 = None
  ∧ (findElement (number := Z) None (λ _, true) None).2 = None.
Proof.
  split; [| split; [| by repeat split]].
  - intros number this_state predicate state. unfold findElement.
    destruct (scanned this_state state) as [s|]; [| done].
    rewrite findElement_in_find. split; [done |]. simpl. split; [| split].
    + intros e. apply find_first.
    + intros e before after -> He Hbefore. by apply tested_first.
    + apply find_none.
  - intros number ps es. apply preorder_node.
Qed.

(** C10. The predicate is never applied to the state that is scanned: that
    state is not among the elements the predicate was applied to, whether
    the state is passed or taken from [this.state].  When the predicate
    holds of that state and of no element below it, [findElement] returns
    nothing; and the result does not change when the predicate is replaced
    by one that agrees with it on the elements below the state. *)
Theorem findElement_skips_root (number : Type) (this_state : option (ElementState number))
    (predicate : ElementState number → bool) (state : ElementState number) :
  (state ∉ fst (findElement this_state predicate (Some state)))
  ∧ (state ∉ fst (findElement (Some state) predicate None))
  ∧ (predicate state = true →
     Forall (λ e, predicate e = false) (preorder state) →
     (findElement this_state predicate (Some state)).2 = None
     ∧ (findElement (Some state) predicate None).2 = None)
  ∧ ∀ other : ElementState number → bool,
      Forall (λ e, other e = predicate e) (preorder state) →
      findElement this_state other (Some state)
      = findElement this_state predicate (Some state).
Proof.
  unfold findElement. simpl. rewrite findElement_in_find. simpl.
  assert (state ∉ tested predicate (preorder state)) as Hnot.
  { intros Hin. by apply tested_sublist, preorder_not_self in Hin. }
  split; [done |]. split; [done |]. split.
  - intros _ Hbelow. by split; apply find_none.
  - intros other Hagree. rewrite findElement_in_find.
    by rewrite (find_ext predicate other), (tested_ext predicate other).
Qed.

Lemma findElement_skips_root_witness :
  is_named "A" elA = true
  ∧ Forall (λ e, is_named "A" e = false) (preorder elA)
  ∧ (findElement None (is_named "A") (Some elA)).2 = None.
Proof.
  assert (Forall (λ e, is_named "A" e = false) (preorder elA)) as Hbelow
    by (repeat constructor).
  split; [reflexivity |]. split; [exact Hbelow |].
  destruct (findElement_skips_root Z None (is_named "A") elA) as (_ & _ & Hnone & _).
  exact (proj1 (Hnone eq_refl Hbelow)).
Defined.

(** ** The claims about the bookkeeping, at concrete wrappers *)

Lemma sample_uuid_length (n : nat) : String.length (sample_uuid n) = 36.
Proof. reflexivity. Qed.

(** With the sample generator every run satisfies the invariant. *)
Lemma sample_run_wf (connected : bool) (m : Mode) (publicToken : string)
    (actions : list (Action (number := Z))) :
  wf (run sample_uuid (constructor connected m publicToken) actions).
Proof. apply wf_run, sample_uuid_length. Qed.

Lemma awaiting_wf : wf awaiting.
Proof. refine (bool_decide_unpack (wf awaiting) _). vm_compute. exact I. Defined.

Lemma awaiting_entry : _pendingPromises (this awaiting) !! sample_uuid 0 = Some 0.
Proof. vm_compute. reflexivity. Defined.

Lemma reply_settles_once_witness :
  let data := JObj [("id", JStr (sample_uuid 0)); ("value", JNum 42%Z)] in
  let outcome := Fulfilled (JObj [("value", JNum 42%Z)]) in
  wf awaiting
  ∧ _pendingPromises (this awaiting) !! sample_uuid 0 = Some 0
  ∧ get data "id" = JStr (sample_uuid 0)
  ∧ requested data = Some outcome
  ∧ promises (browser awaiting) !! 0 = Some Pending
  ∧ promises (browser (_handleMessage sample_uuid data awaiting).2) !! 0
    = Some (Settled outcome)
  ∧ _pendingPromises (this (_handleMessage sample_uuid data awaiting).2) = ∅.
Proof.
  intros data outcome.
  destruct (reply_settles_once sample_uuid awaiting (sample_uuid 0) 0 data outcome
              awaiting_wf awaiting_entry eq_refl eq_refl)
    as (Hhandle & Hbefore & Hafter & _).
  split; [exact awaiting_wf |]. split; [exact awaiting_entry |].
  split; [reflexivity |]. split; [reflexivity |]. split; [exact Hbefore |].
  rewrite Hhandle. split; [exact Hafter |]. vm_compute. reflexivity.
Defined.

Lemma sendCommand_before_ready_witness :
  ready (this fresh) = false
  ∧ _sendCommand sample_uuid [("message", JStr "play")] None fresh
    = (Throw not_ready_error, fresh).
Proof.
  split; [reflexivity |].
  exact (proj1 (sendCommand_before_ready sample_uuid fresh
                  [("message", JStr "play")] None eq_refl)).
Defined.

Lemma error_reply_rejects_witness :
  let data := JObj [("id", JStr (sample_uuid 0)); ("error", JStr "bad input")] in
  wf awaiting
  ∧ _pendingPromises (this awaiting) !! sample_uuid 0 = Some 0
  ∧ get data "id" = JStr (sample_uuid 0)
  ∧ promises (browser (_handleMessage sample_uuid data awaiting).2) !! 0
    = Some (Settled (Rejected (Error "bad input")))
  ∧ method_settlement (number := Z) (SetMode player) (Rejected (Error "bad input"))
    = Rejected (Error "Failed to set mode: bad input").
Proof.
  intros data.
  destruct (error_reply_rejects sample_uuid awaiting (sample_uuid 0) 0 data
              awaiting_wf awaiting_entry eq_refl)
    as (_ & Hbad & _).
  destruct (Hbad eq_refl) as (Hrejected & _).
  split; [exact awaiting_wf |]. split; [exact awaiting_entry |].
  split; [reflexivity |]. split; [exact Hrejected | reflexivity].
Defined.

(** C3 as stated fails: a reply that carries an [error] member holding the
    empty string does not take the error branch; the promise is fulfilled. *)
Lemma reply_with_empty_error_resolves :
  let data := JObj [("id", JStr (sample_uuid 0)); ("error", JStr "")] in
  wf awaiting
  ∧ _pendingPromises (this awaiting) !! sample_uuid 0 = Some 0
  ∧ assoc "error" (own_fields data) = Some (JStr "")
  ∧ promises (browser (_handleMessage sample_uuid data awaiting).2) !! 0
    = Some (Settled (Fulfilled (JObj [])))
  ∧ ¬ ∃ reason,
        promises (browser (_handleMessage sample_uuid data awaiting).2) !! 0
        = Some (Settled (Rejected reason)).
Proof.
  intros data.
  assert (promises (browser (_handleMessage sample_uuid data awaiting).2) !! 0
          = Some (Settled (Fulfilled (JObj [])))) as Hfulfilled
    by (vm_compute; reflexivity).
  split; [exact awaiting_wf |]. split; [exact awaiting_entry |].
  split; [reflexivity |]. split; [exact Hfulfilled |].
  intros [reason Hrejected]. rewrite Hfulfilled in Hrejected. discriminate.
Qed.

Lemma plain_reply_resolves_witness :
  let data := JObj [("id", JStr (sample_uuid 0)); ("value", JNum 42%Z)] in
  wf awaiting
  ∧ _pendingPromises (this awaiting) !! sample_uuid 0 = Some 0
  ∧ get data "id" = JStr (sample_uuid 0)
  ∧ truthy (get data "error") = false
  ∧ promises (browser (_handleMessage sample_uuid data awaiting).2) !! 0
    = Some (Settled (Fulfilled (JObj [("value", JNum 42%Z)]))).
Proof.
  intros data.
  destruct (plain_reply_resolves sample_uuid awaiting (sample_uuid 0) 0 data
              awaiting_wf awaiting_entry eq_refl eq_refl)
    as (Hfulfilled & _).
  split; [exact awaiting_wf |]. split; [exact awaiting_entry |].
  split; [reflexivity |]. split; [reflexivity | exact Hfulfilled].
Defined.

(** A wrapper with an [onPlay] member assigned. *)
Lemma event_dispatch_witness :
  let s := perform sample_uuid fresh
             (Assign (mkHandlers None None None (Some 7) None None None None None)) in
  let data : JsVal Z := JObj [("message", JStr "onPlay")] in
  truthy data = true ∧ typeof data = "object" ∧ truthy (get data "id") = false
  ∧ _handleMessage sample_uuid data s
    = (Normal (), with_browser (λ b, set_trace (trace b ++ [Call 7 []]) b) s)
  ∧ _handleMessage sample_uuid (JObj [("message", JStr "onPause")]) s = (Normal (), s).
Proof.
  intros s data.
  destruct (event_dispatch sample_uuid s data eq_refl eq_refl eq_refl)
    as (Hplay & _).
  destruct (event_dispatch sample_uuid s (JObj [("message", JStr "onPause")])
              eq_refl eq_refl eq_refl)
    as (_ & Hunassigned & _).
  split; [reflexivity |]. split; [reflexivity |]. split; [reflexivity |].
  split; [exact (Hplay 7 eq_refl eq_refl) |].
  apply (Hunassigned "onPause" eq_refl); [discriminate | discriminate | reflexivity].
Defined.

(** C6 as stated fails: with no [onStateChange] member assigned, an
    [onStateChange] event still replaces the state mirror. *)
Lemma unassigned_state_change_replaces_mirror :
  let data : JsVal Z :=
    JObj [("message", JStr "onStateChange"); ("state", JObj [("width", JNum 1280%Z)])] in
  handler_for "onStateChange" (handlers (this fresh)) = None
  ∧ state (this fresh) = JUndefined
  ∧ trace (browser (_handleMessage sample_uuid data fresh).2) = []
  ∧ state (this (_handleMessage sample_uuid data fresh).2) = JObj [("width", JNum 1280%Z)]
  ∧ (_handleMessage sample_uuid data fresh).2 ≠ fresh.
Proof.
  intros data. repeat split; try reflexivity.
  intros Heq. apply (f_equal (λ s, state (this s))) in Heq. discriminate Heq.
Qed.

Lemma ready_event_sets_mode_witness :
  truthy (get onReady_event "id") = false
  ∧ get onReady_event "message" = JStr "onReady"
  ∧ ∃ s3, _handleMessage sample_uuid onReady_event
            (run sample_uuid (constructor true interactive "public-token") [])
          = (Normal (), s3)
      ∧ ready (this s3) = true
      ∧ trace (browser s3)
        = [PostMessage
             (JObj [("id", JStr (sample_uuid 0)); ("message", JStr "setMode");
                    ("mode", JStr "interactive")]) "*"].
Proof.
  destruct (ready_event_sets_mode sample_uuid true interactive "public-token" []
              onReady_event eq_refl eq_refl)
    as (s2 & s3 & _ & _ & _ & _ & Hhandle & Hready & _ & _ & Htrace).
  split; [reflexivity |]. split; [reflexivity |]. exists s3.
  split; [exact Hhandle |]. split; [exact Hready | exact Htrace].
Defined.

(** C9 as stated fails: in a wrapper whose container is not in the document
    the iframe has no content window; an [onReady] event sets [ready] and
    registers the pending promise, and nothing is transmitted. *)
Lemma ready_event_detached_posts_nothing :
  let s' := (_handleMessage sample_uuid onReady_event detached).2 in
  contentWindow detached = false
  ∧ ready (this s') = true
  ∧ _pendingPromises (this s') !! sample_uuid 0 = Some 0
  ∧ promises (browser s') = [Pending]
  ∧ trace (browser s') = [].
Proof. vm_compute. repeat split; reflexivity. Qed.

Lemma findElement_first_in_preorder_witness :
  preorder snapshot = [elA] ++ elB :: [elC; elD]
  ∧ is_named "B" elB = true
  ∧ Forall (λ x, is_named "B" x = false) [elA]
  ∧ (findElement None (is_named "B") (Some snapshot)).1 = [elA] ++ [elB].
Proof.
  assert (Forall (λ x, is_named "B" x = false) [elA]) as Hbefore
    by (repeat constructor).
  destruct findElement_first_in_preorder as [Hgeneral _].
  destruct (Hgeneral Z None (is_named "B") (Some snapshot)) as (_ & _ & Hcalls & _).
  split; [reflexivity |]. split; [reflexivity |]. split; [exact Hbefore |].
  exact (Hcalls elB [elA] [elC; elD] eq_refl eq_refl Hbefore).
Defined.

Lemma dispose_clears_without_settling_witness :
  promises (browser awaiting) !! 0 = Some Pending
  ∧ ∃ s', dispose awaiting = (Normal (), s')
      ∧ listening (browser s') = false
      ∧ _pendingPromises (this s') = ∅
      ∧ promises (browser s') !! 0 = Some Pending.
Proof.
  split; [reflexivity |].
  destruct (dispose_clears_without_settling awaiting)
    as (s' & Hdispose & Hlistening & _ & _ & _ & Htable & _ & Hpending & _).
  exists s'. split; [exact Hdispose |]. split; [exact Hlistening |].
  split; [exact Htable |]. exact (Hpending 0 eq_refl).
Defined.

(** * Further properties *)

(** ** [getElements] and [getSource] *)

Section SnapshotFacts.
Context {number : Type} `{!NumberOps number}.

#[local] Abbreviation JsVal := (JsVal number).
#[local] Abbreviation ElementState := (ElementState number).

Lemma getElements_in_node ps (es : list ElementState) :
  getElements_in (mkElementState ps (Some es)) =
    match get (JObj ps) "source" with
    | JUndefined | JNull => Throw cannot_read_type
    | state_source =>
        collect_elements es
          (if truthy (get state_source "type") then [mkElementState ps (Some es)] else [])
    end.
Proof. simpl. by destruct (get (JObj ps) "source"). Qed.

Lemma getElements_in_leaf ps :
  getElements_in (mkElementState ps None : ElementState) =
    match get (JObj ps) "source" with
    | JUndefined | JNull => Throw cannot_read_type
    | state_source =>
        Normal (if truthy (get state_source "type") then [mkElementState ps None] else [])
    end.
Proof. simpl. by destruct (get (JObj ps) "source"). Qed.

(** What the model computes on every state: the states with a truthy
    [source.type] among the state and everything below it, in preorder,
    unless one of them has no source. *)
Lemma getElements_in_filter (s : ElementState) :
  getElements_in s =
    if forallb has_source (s :: preorder s)
    then Normal (List.filter has_type (s :: preorder s))
    else Throw cannot_read_type.
Proof.
  induction s as [ps | ps es IH] using ElementState_nested_ind.
  - rewrite getElements_in_leaf. unfold has_source, has_type, source. simpl.
    by destruct (get (JObj ps) "source").
  - rewrite getElements_in_node, preorder_node.
    assert (∀ acc, collect_elements es acc =
              if forallb has_source (preorder_list es)
              then Normal (acc ++ List.filter has_type (preorder_list es))
              else Throw cannot_read_type) as Hcollect.
    { induction IH as [|e es He _ IHes]; intros acc; simpl.
      - by rewrite app_nil_r.
      - rewrite He. simpl. rewrite forallb_app, List.filter_app.
        destruct (has_source e); simpl; [| done].
        destruct (forallb has_source (preorder e)); simpl; [| done].
        rewrite IHes. destruct (forallb has_source (preorder_list es)); [| done].
        destruct (has_type e); simpl; by rewrite <- ?app_assoc. }
    cbn [forallb List.filter]. unfold has_source at 1, has_type at 1, source.
    cbn [props].
    destruct (get (JObj ps) "source"); try done; rewrite Hcollect; cbn [andb];
      destruct (forallb has_source (preorder_list es)); try done;
      by destruct (truthy _).
Qed.

Lemma plain_has_source (e : ElementState) : plain_source e = true → has_source e = true.
Proof. unfold plain_source, has_source. by destruct (source e). Qed.

Lemma assoc_set_field (k k' : string) (v : JsVal) (fs : Fields number) :
  assoc k (set_field k' v fs) = if String.eqb k k' then Some v else assoc k fs.
Proof.
  induction fs as [|[k0 v0] fs IH]; simpl.
  - by destruct (String.eqb k k').
  - destruct (String.eqb_spec k' k0) as [<- | Hne]; simpl.
    + by destruct (String.eqb k k').
    + rewrite IH. destruct (String.eqb_spec k k0) as [-> | Hne0]; [| done].
      destruct (String.eqb_spec k0 k'); [congruence | done].
Qed.

(** X1. Without a state to scan, [getElements] returns the empty array.
    Over a state [s] whose sources are plain objects, it returns the states
    with a truthy [source.type] among [s] itself and everything below it,
    in depth-first preorder: a state is returned exactly when it is [s] or
    below [s] and has a type. *)
Theorem getElements_lists_typed_states (this_state state : option ElementState) :
  (scanned this_state state = None → getElements this_state state = Normal [])
  ∧ ∀ s, scanned this_state state = Some s →
      Forall (λ e, plain_source e = true) (s :: preorder s) →
      getElements this_state state = Normal (List.filter has_type (s :: preorder s))
      ∧ ∀ e, e ∈ List.filter has_type (s :: preorder s) ↔
             (e = s ∨ e ∈ preorder s) ∧ has_type e = true.
Proof.
  unfold getElements. split; [by intros -> |]. intros s -> Hplain. split.
  - rewrite getElements_in_filter.
    assert (forallb has_source (s :: preorder s) = true) as ->; [| done].
    apply forallb_forall. intros e He. apply plain_has_source.
    rewrite Forall_forall in Hplain. apply Hplain. by apply list_elem_of_In.
  - intros e. rewrite list_elem_of_In, filter_In, <- list_elem_of_In, elem_of_cons. done.
Qed.


(** X3. [getElements(s).find(p)] and [findElement(p, s)] return the same
    element when every state below [s] has a type and [s] itself has none
    or fails [p].  When [s] has a type and satisfies [p], the former returns
    [s], which the latter never does. *)
Theorem getElements_find_agrees_with_findElement (p : ElementState → bool)
    (s : ElementState) :
  Forall (λ e, plain_source e = true) (s :: preorder s) →
  Forall (λ e, has_type e = true) (preorder s) →
  ∃ found, getElements_in s = Normal found
    ∧ (has_type s = false ∨ p s = false →
       List.find p found = (findElement_in p s).2)
    ∧ (has_type s = true → p s = true →
       List.find p found = Some s ∧ (findElement_in p s).2 ≠ Some s).
Proof.
  intros Hplain Htyped. eexists. split.
  { rewrite getElements_in_filter.
    assert (forallb has_source (s :: preorder s) = true) as ->; [| done].
    apply forallb_forall. intros e He. apply plain_has_source.
    rewrite Forall_forall in Hplain. apply Hplain. by apply list_elem_of_In. }
  assert (List.filter has_type (preorder s) = preorder s) as Hall.
  { clear Hplain. induction Htyped as [|e l He _ IH]; simpl; [done |].
    by rewrite He, IH. }
  rewrite findElement_in_find. cbn [List.filter snd]. rewrite Hall. split.
  - intros [Hs | Hs]; [by rewrite Hs |]. destruct (has_type s); simpl; by rewrite ?Hs.
  - intros Htype Hs. rewrite Htype. simpl. rewrite Hs. split; [done |].
    intros Hfound. apply find_some in Hfound as [Hin _].
    by apply list_elem_of_In, preorder_not_self in Hin.
Qed.

(** X4. Over a state whose sources are plain objects, [getSource] returns
    the very source of the state when the state has no [elements];
    otherwise an object whose [elements] member is the array of the sources
    of the elements, in order, whatever the source held under that name,
    and whose other members are those of the source. *)
Theorem getSource_keeps_members (s : ElementState) :
  Forall (λ e, plain_source e = true) (s :: preorder s) →
  (elements s = None → getSource_in s = source s)
  ∧ ∀ es, elements s = Some es →
      get (getSource_in s) "elements" = JArr (List.map getSource_in es)
      ∧ ∀ k, k ≠ "elements" → get (getSource_in s) k = get (source s) k.
Proof.
  intros Hall. assert (plain_source s = true) as Hplain by (by inversion Hall).
  clear Hall. revert Hplain.
  destruct s as [ps [es|]]; unfold plain_source, source; simpl; intros Hplain.
  - split; [done |]. intros ? [= <-]. unfold get. simpl. split.
    + by rewrite assoc_set_field.
    + intros k Hk. rewrite assoc_set_field.
      destruct (String.eqb_spec k "elements"); [done |].
      by destruct (get (JObj ps) "source").
  - split; [done |]. by intros es.
Qed.

(** X5. [getSource] reads nothing of a state but its source and its
    elements: the other members (track, times, durations) never reach the
    result. *)
Theorem getSource_reads_sources_only (s : ElementState) :
  getSource_in (source_only s) = getSource_in s.
Proof.
  induction s as [ps | ps es IH] using ElementState_nested_ind; [done |].
  simpl. do 3 f_equal. rewrite List.map_map.
  induction IH as [|e es He _ IHes]; simpl; [done |]. by rewrite He, IHes.
Qed.

End SnapshotFacts.

(** ** The life of a wrapper *)

Section LifecycleFacts.
Context {number : Type} `{!NumberOps number}.
Variable uuid : nat → string.

#[local] Abbreviation JsVal := (JsVal number).
#[local] Abbreviation Fields := (Fields number).
#[local] Abbreviation Sys := (Sys (number := number)).
#[local] Abbreviation Command := (Command (number := number)).
#[local] Abbreviation Action := (Action (number := number)).

Ltac run_m :=
  unfold settle_reply, resolve, reject, settle, call_if_set, postMessage, emit,
    new_promise, next_uuid, attempt, update, read, throw,
    mbind, M_bind, mret, M_ret; simpl.

Ltac crush_handler :=
  unfold _handleMessage, dispatch_event, setMode, call, _sendCommand, dispose;
  run_m; repeat case_match; simplify_eq/=; try done.

Lemma call_ready (c : Command) (s : Sys) :
  ready (this s) = true →
  call uuid c s =
    (Normal (Follows (length (promises (browser s))) c),
     (_sendCommand uuid (command_message c) (command_payload c) s).2).
Proof.
  intros Hready. unfold call. destruct (is_async c); run_m; by rewrite sendCommand_ready.
Qed.

Lemma handle_ready_kept (data : JsVal) (s : Sys) :
  ready (this s) = true → ready (this (_handleMessage uuid data s).2) = true.
Proof. intros Hready. crush_handler. Qed.

Lemma handle_ready_set (data : JsVal) (s : Sys) :
  ready (this s) = false → ready (this (_handleMessage uuid data s).2) = true →
  truthy (get data "id") = false ∧ get data "message" = JStr "onReady".
Proof.
  intros Hready. crush_handler; try congruence.
  all: intros _; split; [done |]; f_equal; by apply String.eqb_eq.
Qed.

Lemma perform_ready_kept (s : Sys) (a : Action) :
  ready (this s) = true → ready (this (perform uuid s a)) = true.
Proof.
  intros Hready. destruct a as [data | c | | h | connected]; simpl; try done.
  - destruct (listening (browser s)); [by apply handle_ready_kept | done].
  - rewrite call_state, Hready. by rewrite sendCommand_ready.
Qed.

Lemma perform_ready_set (s : Sys) (a : Action) :
  ready (this s) = false → ready (this (perform uuid s a)) = true →
  ∃ data, a = Receive data ∧ truthy (get data "id") = false
          ∧ get data "message" = JStr "onReady".
Proof.
  intros Hready. destruct a as [data | c | | h | connected]; simpl; try congruence.
  - destruct (listening (browser s)); [| congruence].
    intros Hset. exists data. split; [done |]. by apply handle_ready_set with (s := s).
  - rewrite call_state, Hready. congruence.
Qed.

(** X6. [ready] is set by an [onReady] event and by nothing else, and
    nothing resets it, not even [dispose]. *)
Theorem ready_set_by_onReady_only (s : Sys) (actions : list Action) :
  (ready (this s) = true → ready (this (run uuid s actions)) = true)
  ∧ (ready (this s) = false → ready (this (run uuid s actions)) = true →
     ∃ data, Receive data ∈ actions ∧ truthy (get data "id") = false
             ∧ get data "message" = JStr "onReady").
Proof.
  split.
  - revert s. induction actions as [|a actions IH]; intros s Hready; [done |].
    apply IH. by apply perform_ready_kept.
  - revert s. induction actions as [|a actions IH]; intros s Hready; simpl; [congruence |].
    destruct (ready (this (perform uuid s a))) eqn:Hnext.
    + intros _. destruct (perform_ready_set s a Hready Hnext) as (data & -> & Hdata).
      exists data. split; [apply list_elem_of_here | done].
    + intros Hend. destruct (IH _ Hnext Hend) as (data & Hin & Hdata).
      exists data. split; [by apply list_elem_of_further | done].
Qed.

(** *** After [dispose] *)

Lemma perform_disposed (s : Sys) (a : Action) :
  listening (browser s) = false → attached (_iframe (this s)) = false →
  listening (browser (perform uuid s a)) = false
  ∧ attached (_iframe (this (perform uuid s a))) = false
  ∧ trace (browser (perform uuid s a)) = trace (browser s).
Proof.
  intros Hlistening Hattached. destruct a as [data | c | | h | connected]; simpl; try done.
  - by rewrite Hlistening.
  - rewrite call_state. destruct (ready (this s)) eqn:Hready; [| done].
    rewrite sendCommand_ready by done. unfold contentWindow. rewrite Hattached. simpl.
    by rewrite app_nil_r.
Qed.

Lemma run_disposed (s : Sys) (actions : list Action) :
  listening (browser s) = false → attached (_iframe (this s)) = false →
  trace (browser (run uuid s actions)) = trace (browser s).
Proof.
  revert s. induction actions as [|a actions IH]; intros s Hlistening Hattached; [done |].
  destruct (perform_disposed s a Hlistening Hattached) as (Hl & Ha & Ht).
  change (run uuid s (a :: actions)) with (run uuid (perform uuid s a) actions).
  by rewrite IH, Ht.
Qed.

(** X7. A disposed wrapper is inert: whatever is done with it afterwards,
    it posts no message to the iframe, calls no [on...] member, and
    settles no promise, so every promise that was pending at the time of
    [dispose] stays pending for good. *)
Theorem dispose_silences (s : Sys) (actions : list Action) :
  let s' := run uuid (dispose s).2 actions in
  trace (browser s') = trace (browser s)
  ∧ ∀ p, promises (browser s) !! p = Some Pending →
         promises (browser s') !! p = Some Pending.
Proof.
  split.
  - by rewrite run_disposed.
  - intros p Hp. by apply disposed_never_settles.
Qed.

(** X8. Nothing resets [ready], so a command issued after [dispose] is
    not refused: it returns a promise like any other, although no message
    is posted, and that promise never settles. *)
Theorem command_after_dispose_hangs (s : Sys) (c : Command) (actions : list Action) :
  ready (this s) = true →
  ∃ p s1, call uuid c (dispose s).2 = (Normal (Follows p c), s1)
    ∧ trace (browser s1) = trace (browser s)
    ∧ promises (browser s1) !! p = Some Pending
    ∧ promises (browser (run uuid s1 actions)) !! p = Some Pending.
Proof.
  intros Hready. do 2 eexists. split; [by apply call_ready |].
  rewrite sendCommand_ready by done. simpl.
  assert (∀ ps : list (PromiseState (number := number)),
            (ps ++ [Pending]) !! length ps = Some Pending) as Hlast.
  { intros ps. rewrite lookup_app_r by lia. by rewrite Nat.sub_diag. }
  split; [by rewrite app_nil_r |]. split; [apply Hlast |].
  apply run_without_listener; [done |]. apply Hlast.
Qed.

(** X9. The [mode] member is assigned by the constructor alone: no
    method, [setMode] included, and no message changes it. *)
Theorem mode_member_never_changes (s : Sys) (m' : Mode) (actions : list Action) :
  mode (this (setMode uuid m' s).2) = mode (this s)
  ∧ mode (this (run uuid s actions)) = mode (this s).
Proof.
  split; [| apply run_mode].
  change (setMode uuid m' s).2 with (perform uuid s (Invoke (SetMode m'))).
  apply perform_mode.
Qed.

(** *** The state mirror *)

Lemma assoc_filter_keys (ks : list string) (k : string) (fs : Fields) :
  key_in ks k = false →
  assoc k (List.filter (λ kv, negb (key_in ks kv.1)) fs) = assoc k fs.
Proof.
  intros Hk. induction fs as [|[k' v] fs IH]; [done |]. cbn [List.filter fst assoc].
  destruct (String.eqb_spec k k') as [<- | Hne].
  - rewrite Hk. cbn [negb assoc]. by rewrite String.eqb_refl.
  - destruct (key_in ks k'); cbn [negb assoc]; [done |].
    by destruct (String.eqb_spec k k').
Qed.

Lemma get_rest_without (ks : list string) (data : JsVal) (k : string) :
  key_in ks k = false → get (rest_without ks data) k = get data k.
Proof. intros Hk. unfold get, rest_without. simpl. by rewrite assoc_filter_keys. Qed.

Lemma handle_state (data : JsVal) (s : Sys) :
  state (this (_handleMessage uuid data s).2) = state (this s)
  ∨ (truthy (get data "id") = false ∧ get data "message" = JStr "onStateChange"
     ∧ state (this (_handleMessage uuid data s).2) = get data "state").
Proof.
  crush_handler; try (by left).
  all: right; split; [done |]; split; [f_equal; by apply String.eqb_eq |].
  all: by apply get_rest_without.
Qed.

(** X10. The [state] member changes in one way only: an [onStateChange]
    event replaces it by the [state] the event carries.  No command
    ([setSource], [loadTemplate], ...) and no reply updates it, and
    [dispose] leaves the last snapshot in place. *)
Theorem state_mirror_follows_state_changes (s : Sys) (a : Action) :
  state (this (perform uuid s a)) ≠ state (this s) →
  ∃ data, a = Receive data ∧ listening (browser s) = true
    ∧ truthy (get data "id") = false
    ∧ get data "message" = JStr "onStateChange"
    ∧ state (this (perform uuid s a)) = get data "state".
Proof.
  destruct a as [data | c | | h | connected]; simpl; try done.
  - destruct (listening (browser s)); [| done]. intros Hchanged.
    destruct (handle_state data s) as [Hsame | Hnew]; [done |]. by exists data.
  - rewrite call_state. destruct (ready (this s)) eqn:Hready; [| done].
    by rewrite sendCommand_ready.
Qed.

(** *** One message, one call *)


(** *** A settled promise *)

(** X12. A promise settles at most once: once it is settled, nothing
    that happens to the wrapper (replies carrying any identifier, new
    commands, [dispose]) changes its settlement. *)
Theorem settled_promise_is_final (s : Sys) (actions : list Action) (p : nat)
    (o : Settlement) :
  promises (browser s) !! p = Some (Settled o) →
  promises (browser (run uuid s actions)) !! p = Some (Settled o).
Proof. apply run_keeps_settled. Qed.

(** *** From a command to its reply *)

Lemma command_carries_id (c : Command) (id : string) :
  let message :=
    JObj (spread (spread [("id", JStr id)] (json_fields (command_message c)))
            (default [] (command_payload c))) in
  get message "id" = JStr id
  ∧ get message "message" = get (JObj (command_message c)) "message".
Proof. by destruct c. Qed.

Hypothesis uuid_length : ∀ n, String.length (uuid n) = 36.

(** X13. In every state a wrapper can reach, each entry of the pending
    table is filed under a 36-character identifier, belongs to a promise
    that is still pending, and shares that promise with no other entry. *)
Theorem pending_entries_await (connected : bool) (m : Mode) (publicToken : string)
    (actions : list Action) (X : string) (p : nat) :
  let s := run uuid (constructor connected m publicToken) actions in
  _pendingPromises (this s) !! X = Some p →
  String.length X = 36
  ∧ promises (browser s) !! p = Some Pending
  ∧ ∀ X', _pendingPromises (this s) !! X' = Some p → X' = X.
Proof.
  intros s HX. pose proof (wf_run uuid uuid_length connected m publicToken actions) as Hwf.
  fold s in Hwf. destruct (pending_entry s X p Hwf HX) as [Hlen Hp].
  split; [done |]. split; [done |]. intros X' HX'.
  destruct Hwf as [_ Hinj]. by apply (Hinj X' p HX' X p HX).
Qed.

(** X14. The round trip of a command.  In a ready wrapper a method call
    returns a pending promise, files it under a new identifier, and (if the
    iframe has a content window) posts one message that carries this
    identifier next to the name of the command.  A reply carrying the
    identifier then settles exactly that promise as the reply asks, and
    removes the entry. *)
Theorem command_reply_round_trip (s : Sys) (c : Command) (data : JsVal)
    (outcome : Settlement) :
  wf s → ready (this s) = true →
  let id := uuid (uuid_calls (browser s)) in
  get data "id" = JStr id → requested data = Some outcome →
  ∃ p s1 message,
    call uuid c s = (Normal (Follows p c), s1)
    ∧ trace (browser s1) =
        trace (browser s) ++ (if contentWindow s then [PostMessage message "*"] else [])
    ∧ get message "id" = JStr id
    ∧ get message "message" = get (JObj (command_message c)) "message"
    ∧ _pendingPromises (this s1) !! id = Some p
    ∧ promises (browser s1) !! p = Some Pending
    ∧ promises (browser (_handleMessage uuid data s1).2) !! p = Some (Settled outcome)
    ∧ _pendingPromises (this (_handleMessage uuid data s1).2) !! id = None.
Proof.
  intros Hwf Hready id Hid Hrequested.
  pose proof (wf_sendCommand uuid uuid_length s (command_message c) (command_payload c) Hwf)
    as Hwf1.
  destruct (command_carries_id c id) as [Hcarried Hname].
  do 3 eexists. split; [by apply call_ready |].
  revert Hwf1. rewrite sendCommand_ready by done. intros Hwf1.
  split; [reflexivity |]. split; [exact Hcarried |]. split; [exact Hname |].
  assert (∀ s1 : Sys, _pendingPromises (this s1) !! id = Some (length (promises (browser s)))
            → wf s1 →
            promises (browser (_handleMessage uuid data s1).2) !! length (promises (browser s))
              = Some (Settled outcome)
            ∧ _pendingPromises (this (_handleMessage uuid data s1).2) !! id = None) as Hreply.
  { intros s1 Hentry Hwf'. split; [by apply handle_reply_promise with (X := id) |].
    rewrite (handle_reply uuid s1 id _ data outcome) by done. simpl.
    apply lookup_delete_eq. }
  split; [apply lookup_insert_eq |].
  split. { simpl. rewrite lookup_app_r by lia. by rewrite Nat.sub_diag. }
  apply Hreply; [apply lookup_insert_eq | done].
Qed.

End LifecycleFacts.

(** ** Adding a slide *)

Section SettingsPanelFacts.
Context {number : Type} `{!NumberOps number}.
Variables (num_1 num_4 num_0_5 num_3_5 : number).

#[local] Abbreviation JsVal := (JsVal number).
#[local] Abbreviation Fields := (Fields number).
#[local] Abbreviation createSlide := (createSlide num_1 num_4 num_0_5 num_3_5).
#[local] Abbreviation addSlide := (addSlide num_1 num_4 num_0_5 num_3_5).

Lemma assoc_delete_field (k k' : string) (fs : Fields) :
  assoc k (delete_field k' fs) = if String.eqb k k' then None else assoc k fs.
Proof.
  induction fs as [|[k0 v] fs IH]; cbn [delete_field List.filter fst assoc].
  - by destruct (String.eqb k k').
  - fold (delete_field k' fs). destruct (String.eqb_spec k0 k') as [-> | Hne]; cbn [negb assoc].
    + rewrite IH. by destruct (String.eqb_spec k k').
    + rewrite IH. destruct (String.eqb_spec k k0) as [-> | Hne0]; [| done].
      by destruct (String.eqb_spec k0 k').
Qed.

Lemma get_set_field (k k' : string) (v : JsVal) (fs : Fields) :
  get (JObj (set_field k' v fs)) k = if String.eqb k k' then v else get (JObj fs) k.
Proof. unfold get. simpl. rewrite assoc_set_field. by destruct (String.eqb k k'). Qed.

Lemma get_delete_field (k k' : string) (fs : Fields) :
  get (JObj (delete_field k' fs)) k = if String.eqb k k' then JUndefined else get (JObj fs) k.
Proof. unfold get. simpl. rewrite assoc_delete_field. by destruct (String.eqb k k'). Qed.

Lemma get_without_time (element : JsVal) (k : string) :
  k ≠ "time" → get (without_time element) k = get element k.
Proof.
  intros Hk. destruct element; try done. simpl. rewrite get_delete_field.
  by destruct (String.eqb_spec k "time").
Qed.

Lemma starts_with_Slide_without_time (element : JsVal) :
  starts_with_Slide (without_time element) = starts_with_Slide element.
Proof. unfold starts_with_Slide. by rewrite get_without_time. Qed.

Lemma delete_times_present (elements : list JsVal) :
  Forall (λ e, present e = true) elements →
  delete_times elements = Normal (List.map without_time elements).
Proof.
  induction 1 as [|e es He _ IH]; [done |]. cbn [delete_times List.map]. rewrite IH.
  by destruct e.
Qed.

Lemma findLastIndex_in_skip (predicate : JsVal → Completion bool)
    (skipped backwards : list JsVal) :
  Forall (λ e, predicate e = Normal false) skipped →
  findLastIndex_in predicate (skipped ++ backwards) = findLastIndex_in predicate backwards.
Proof. induction 1 as [|e es He _ IH]; [done |]. simpl. by rewrite He. Qed.

Lemma findLastIndex_last (predicate : JsVal → Completion bool)
    (before after : list JsVal) (last : JsVal) :
  predicate last = Normal true →
  Forall (λ e, predicate e = Normal false) after →
  findLastIndex predicate (before ++ last :: after) = Normal (Some (length before)).
Proof.
  intros Hlast Hafter. unfold findLastIndex.
  rewrite rev_app_distr. cbn [rev]. rewrite <- !app_assoc.
  rewrite findLastIndex_in_skip by (by apply Forall_rev).
  simpl. by rewrite Hlast, length_rev.
Qed.

Lemma findLastIndex_none (predicate : JsVal → Completion bool) (elements : list JsVal) :
  Forall (λ e, predicate e = Normal false) elements →
  findLastIndex predicate elements = Normal None.
Proof.
  intros Hall. unfold findLastIndex.
  rewrite <- (app_nil_r (rev elements)). by rewrite findLastIndex_in_skip by (by apply Forall_rev).
Qed.

Lemma splice_in_after (before after : list JsVal) (last item : JsVal) :
  splice_in (length before + 1) item (before ++ last :: after)
  = before ++ last :: item :: after.
Proof.
  unfold splice_in. rewrite take_app_add', drop_app_add' by done. simpl.
  by rewrite <- app_assoc.
Qed.

Lemma addSlide_found (members : Fields) (before after : list JsVal) (last : JsVal) :
  get (JObj members) "elements" = JArr (before ++ last :: after) →
  Forall (λ e, present e = true) (before ++ last :: after) →
  starts_with_Slide last = Normal true →
  Forall (λ e, starts_with_Slide e = Normal false) after →
  addSlide (JObj members) =
    Normal
      (Some
         (JObj
            (set_field "elements"
               (JArr (List.map without_time before ++ without_time last
                      :: createSlide ("Slide-" +:+ pretty (length before))
                           (new_caption (length before))
                      :: List.map without_time after))
               (delete_field "duration" members)))).
Proof.
  intros Helements Hpresent Hlast Hafter. unfold addSlide.
  rewrite get_delete_field. change (String.eqb "elements" "duration") with false.
  cbv iota. rewrite Helements, delete_times_present by done.
  rewrite List.map_app. cbn [List.map].
  rewrite findLastIndex_last.
  - cbv beta iota zeta. rewrite splice_in_after, length_map. done.
  - by rewrite starts_with_Slide_without_time.
  - apply Forall_map. eapply Forall_impl; [exact Hafter |].
    intros e He. simpl. by rewrite starts_with_Slide_without_time.
Qed.

(** X15. When the top-level elements hold a slide (an element whose name
    starts with [Slide-]), [addSlide] sends a source in which the new slide
    stands right after the last slide and every element that was there
    keeps its place and loses only its [time].  The new slide is named
    after the index [i] of the last slide: [Slide-i].  The source sent has
    no [duration], and its other members are those of the source read.
    The elements before the last slide are not examined: they can be
    anything but [undefined] and [null]. *)
Theorem addSlide_inserts_after_last_slide (members : Fields) (before after : list JsVal)
    (last : JsVal) :
  get (JObj members) "elements" = JArr (before ++ last :: after) →
  Forall (λ e, present e = true) (before ++ last :: after) →
  starts_with_Slide last = Normal true →
  Forall (λ e, starts_with_Slide e = Normal false) after →
  ∃ sent,
    addSlide (JObj members) = Normal (Some sent)
    ∧ get sent "elements"
      = JArr (List.map without_time before ++ without_time last
              :: createSlide ("Slide-" +:+ pretty (length before))
                   (new_caption (length before))
              :: List.map without_time after)
    ∧ get sent "duration" = JUndefined
    ∧ ∀ k, k ≠ "duration" → k ≠ "elements" → get sent k = get (JObj members) k.
Proof.
  intros Helements Hpresent Hlast Hafter. eexists. split; [by apply addSlide_found |].
  split; [by rewrite get_set_field |]. split.
  - rewrite get_set_field. change (String.eqb "duration" "elements") with false.
    cbv iota. rewrite get_delete_field. by rewrite String.eqb_refl.
  - intros k Hduration Helems. rewrite get_set_field, get_delete_field.
    destruct (String.eqb_spec k "elements"); [done |].
    by destruct (String.eqb_spec k "duration").
Qed.

(** X16. Without a slide among the top-level elements, [addSlide] returns
    without calling [setSource]. *)
Theorem addSlide_without_slides (members : Fields) (elements : list JsVal) :
  get (JObj members) "elements" = JArr elements →
  Forall (λ e, present e = true) elements →
  Forall (λ e, starts_with_Slide e = Normal false) elements →
  addSlide (JObj members) = Normal None.
Proof.
  intros Helements Hpresent Hnone. unfold addSlide.
  rewrite get_delete_field. change (String.eqb "elements" "duration") with false.
  cbv iota. rewrite Helements, delete_times_present by done.
  rewrite findLastIndex_none; [done |].
  apply Forall_map. eapply Forall_impl; [exact Hnone |].
  intros e He. simpl. by rewrite starts_with_Slide_without_time.
Qed.

Lemma prefix_app (s t : string) : String.prefix s (s +:+ t) = true.
Proof.
  induction s as [|c s IH]; [by destruct t |].
  change (String c s +:+ t) with (String c (s +:+ t)). simpl.
  by destruct (Ascii.ascii_dec c c).
Qed.

(** X17. The name of the new slide is made of the position of the last
    slide, not of its name.  So when the last slide is called [Slide-i]
    and is the element at index [i], the slide inserted after it gets the
    same name: the source sent holds two neighbours called [Slide-i]. *)
Theorem addSlide_repeats_name (members : Fields) (before after : list JsVal)
    (last : JsVal) :
  let i := length before in
  get (JObj members) "elements" = JArr (before ++ last :: after) →
  Forall (λ e, present e = true) (before ++ last :: after) →
  get last "name" = JStr ("Slide-" +:+ pretty i) →
  Forall (λ e, starts_with_Slide e = Normal false) after →
  ∃ sent sent_elements old new,
    addSlide (JObj members) = Normal (Some sent)
    ∧ get sent "elements" = JArr sent_elements
    ∧ sent_elements !! i = Some old
    ∧ sent_elements !! (i + 1) = Some new
    ∧ get old "name" = JStr ("Slide-" +:+ pretty i)
    ∧ get new "name" = JStr ("Slide-" +:+ pretty i).
Proof.
  intros i Helements Hpresent Hname Hafter.
  assert (starts_with_Slide last = Normal true) as Hlast.
  { unfold starts_with_Slide. rewrite Hname. by rewrite prefix_app. }
  do 4 eexists. split; [by apply addSlide_found |].
  split; [by rewrite get_set_field |].
  split. { rewrite lookup_app_r by (by rewrite length_map).
           rewrite length_map. unfold i. by rewrite Nat.sub_diag. }
  split. { rewrite lookup_app_r by (rewrite length_map; unfold i; lia).
           rewrite length_map. unfold i.
           by replace (length before + 1 - length before) with 1 by lia. }
  split; [| done]. by rewrite get_without_time.
Qed.

Lemma starts_with_Slide_createSlide (slideName caption : string) :
  starts_with_Slide (createSlide slideName caption)
  = Normal (String.prefix "Slide-" slideName).
Proof. done. Qed.

(** X18. Adding a slide to the source that [addSlide] sent adds it right
    after the slide added before, under the next index: the slides added in
    a row are called [Slide-i], [Slide-(i+1)], ... and stand in that
    order. *)
Theorem addSlide_twice (members : Fields) (before after : list JsVal) (last : JsVal) :
  let i := length before in
  get (JObj members) "elements" = JArr (before ++ last :: after) →
  Forall (λ e, present e = true) (before ++ last :: after) →
  starts_with_Slide last = Normal true →
  Forall (λ e, starts_with_Slide e = Normal false) after →
  ∃ sent sent_again,
    addSlide (JObj members) = Normal (Some sent)
    ∧ addSlide sent = Normal (Some sent_again)
    ∧ get sent_again "elements"
      = JArr (List.map without_time before ++ without_time last
              :: createSlide ("Slide-" +:+ pretty i) (new_caption i)
              :: createSlide ("Slide-" +:+ pretty (i + 1)) (new_caption (i + 1))
              :: List.map without_time after).
Proof.
  intros i Helements Hpresent Hlast Hafter.
  do 2 eexists. split; [by apply addSlide_found |].
  set (first := createSlide ("Slide-" +:+ pretty (length before))
                  (new_caption (length before))).
  assert (∀ e : JsVal, without_time (without_time e) = without_time e) as Hidem.
  { intros [| | | | | |fs|]; try done. simpl. f_equal. unfold delete_field.
    induction fs as [|[k v] fs IH]; [done |]. simpl.
    destruct (String.eqb k "time") eqn:Hk; simpl; [done |]. by rewrite Hk, IH. }
  assert (∀ e : JsVal, present (without_time e) = present e) as Hkept by (by intros []).
  rewrite (addSlide_found _ (List.map without_time before ++ [without_time last])
             (List.map without_time after) first).
  - rewrite List.map_app, !List.map_map, length_app, length_map. cbn [List.map length].
    rewrite <- app_assoc. cbn [app]. fold i.
    split; [reflexivity |]. rewrite get_set_field.
    change (String.eqb "elements" "elements") with true. cbv iota.
    rewrite (List.map_ext _ _ Hidem before), (List.map_ext _ _ Hidem after), Hidem.
    reflexivity.
  - rewrite get_set_field. change (String.eqb "elements" "elements") with true. cbv iota.
    by rewrite <- app_assoc.
  - rewrite <- app_assoc. cbn [app]. rewrite !Forall_app, !Forall_cons in *.
    destruct Hpresent as (Hb & Hl & Ha). repeat split.
    + apply Forall_map. eapply Forall_impl; [exact Hb |]. intros e He. simpl.
      by rewrite Hkept.
    + by rewrite Hkept.
    + apply Forall_map. eapply Forall_impl; [exact Ha |]. intros e He. simpl.
      by rewrite Hkept.
  - unfold first. rewrite starts_with_Slide_createSlide. by rewrite prefix_app.
  - apply Forall_map. eapply Forall_impl; [exact Hafter |].
    intros e He. simpl. by rewrite starts_with_Slide_without_time.
Qed.

Lemma delete_times_absent (elements : list JsVal) :
  Exists (λ e, present e = false) elements →
  delete_times elements = Throw cannot_convert_to_object.
Proof.
  induction 1 as [e es He | e es _ IH]; cbn [delete_times].
  - by destruct e.
  - rewrite IH. by destruct e.
Qed.

Lemma findLastIndex_throws (predicate : JsVal → Completion bool)
    (before after : list JsVal) (bad : JsVal) (err : JsError) :
  predicate bad = Throw err →
  Forall (λ e, predicate e = Normal false) after →
  findLastIndex predicate (before ++ bad :: after) = Throw err.
Proof.
  intros Hbad Hafter. unfold findLastIndex.
  rewrite rev_app_distr. cbn [rev]. rewrite <- !app_assoc.
  rewrite findLastIndex_in_skip by (by apply Forall_rev).
  simpl. by rewrite Hbad.
Qed.

(** X19. [addSlide] ends in a [TypeError], and calls nothing, when the
    source is not an object or has no [elements] array, when one of the
    elements is [undefined] or [null], and when the search for the last
    slide, which runs from the last element backwards, comes to an element
    whose name is neither absent nor a string. *)
Theorem addSlide_throws :
  (∀ source : JsVal, (∀ members, source ≠ JObj members) →
     ∃ e, addSlide source = Throw e ∧ error_name e = "TypeError")
  ∧ ∀ members : Fields,
      ((∀ elements, get (JObj members) "elements" ≠ JArr elements) →
       ∃ e, addSlide (JObj members) = Throw e ∧ error_name e = "TypeError")
      ∧ (∀ elements, get (JObj members) "elements" = JArr elements →
           Exists (λ e, present e = false) elements →
           addSlide (JObj members) = Throw cannot_convert_to_object)
      ∧ (∀ before bad after e,
           get (JObj members) "elements" = JArr (before ++ bad :: after) →
           Forall (λ e, present e = true) (before ++ bad :: after) →
           starts_with_Slide bad = Throw e →
           Forall (λ e, starts_with_Slide e = Normal false) after →
           addSlide (JObj members) = Throw e ∧ error_name e = "TypeError").
Proof.
  split.
  { intros source Hnot. destruct source as [| | | | | |members|]; try (by eexists).
    by destruct (Hnot members). }
  intros members.
  assert (get (JObj (delete_field "duration" members)) "elements"
          = get (JObj members) "elements") as Hkept.
  { rewrite get_delete_field. by change (String.eqb "elements" "duration") with false. }
  unfold addSlide. rewrite Hkept. split; [| split].
  - intros Hnone.
    destruct (get (JObj members) "elements") as [| | | | |elements| |] eqn:Helements;
      try (by eexists).
    by destruct (Hnone elements).
  - intros elements -> Habsent. by rewrite delete_times_absent.
  - intros before bad after e -> Hpresent Hbad Hafter.
    rewrite delete_times_present by done.
    rewrite List.map_app. cbn [List.map].
    rewrite (findLastIndex_throws _ _ _ _ e).
    + split; [done |]. revert Hbad. unfold starts_with_Slide.
      destruct (get bad "name"); try done; by intros [= <-].
    + by rewrite starts_with_Slide_without_time.
    + apply Forall_map. eapply Forall_impl; [exact Hafter |].
      intros x Hx. simpl. by rewrite starts_with_Slide_without_time.
Qed.

End SettingsPanelFacts.

(** ** The further properties at sample inputs *)

Lemma getElements_lists_typed_states_witness :
  getElements (Some video) None
  = Normal [title_element; slide_element; image_element; caption_element].
Proof.
  destruct (getElements_lists_typed_states (Some video) None) as [_ Hsome].
  destruct (Hsome video) as [-> _]; [reflexivity | | reflexivity].
  vm_compute. repeat constructor.
Defined.

Lemma getElements_find_agrees_with_findElement_witness :
  ∃ found, getElements_in video = Normal found
    ∧ List.find (is_named "Slide-1-Text") found = Some caption_element
    ∧ (findElement (Some video) (is_named "Slide-1-Text") None).2 = Some caption_element.
Proof.
  destruct (getElements_find_agrees_with_findElement (is_named "Slide-1-Text") video)
    as (found & Hfound & Hagree & _).
  - vm_compute. repeat constructor.
  - vm_compute. repeat constructor.
  - exists found. split; [exact Hfound |]. split; [| reflexivity].
    rewrite Hagree; [reflexivity | left; reflexivity].
Defined.

Lemma getSource_keeps_members_witness :
  Forall (λ e, plain_source e = true) (slide_element :: preorder slide_element)
  ∧ get (getSource_in slide_element) "name" = JStr "Slide-1"
  ∧ get (getSource_in slide_element) "elements"
    = JArr [source image_element; source caption_element].
Proof.
  assert (Forall (λ e, plain_source e = true) (slide_element :: preorder slide_element))
    as Hplain by (vm_compute; repeat constructor).
  split; [exact Hplain |].
  destruct (getSource_keeps_members slide_element Hplain) as [_ Hnode].
  destruct (Hnode [image_element; caption_element] eq_refl) as [Helements Hothers].
  split; [| exact Helements]. rewrite Hothers; [reflexivity | discriminate].
Defined.

Lemma ready_set_by_onReady_only_witness :
  ready (this fresh) = false
  ∧ ready (this (run sample_uuid fresh [Receive onReady_event])) = true
  ∧ ∃ data, Receive data ∈ [Receive onReady_event]
      ∧ truthy (get data "id") = false ∧ get data "message" = JStr "onReady".
Proof.
  split; [reflexivity |]. split; [reflexivity |].
  exact (proj2 (ready_set_by_onReady_only sample_uuid fresh [Receive onReady_event])
           eq_refl eq_refl).
Defined.

Lemma command_after_dispose_hangs_witness :
  ready (this awaiting) = true
  ∧ ∃ p s1, call sample_uuid Play (dispose awaiting).2 = (Normal (Follows p Play), s1)
      ∧ trace (browser s1) = trace (browser awaiting)
      ∧ promises (browser s1) !! p = Some Pending
      ∧ promises (browser (run sample_uuid s1 [Receive first_reply])) !! p = Some Pending.
Proof.
  split; [reflexivity |].
  exact (command_after_dispose_hangs sample_uuid awaiting Play [Receive first_reply] eq_refl).
Defined.

Lemma state_mirror_follows_state_changes_witness :
  state (this (perform sample_uuid awaiting (Receive state_change_event)))
  ≠ state (this awaiting)
  ∧ state (this (perform sample_uuid awaiting (Receive state_change_event)))
    = get state_change_event "state".
Proof.
  assert (state (this (perform sample_uuid awaiting (Receive state_change_event)))
          ≠ state (this awaiting)) as Hchanged.
  { vm_compute. discriminate. }
  split; [exact Hchanged |].
  destruct (state_mirror_follows_state_changes sample_uuid awaiting
              (Receive state_change_event) Hchanged)
    as (data & Hdata & _ & _ & _ & Hstate).
  injection Hdata as <-. exact Hstate.
Defined.

Lemma settled_promise_is_final_witness :
  promises (browser answered) !! 0 = Some (Settled (Fulfilled (JObj [])))
  ∧ promises (browser (run sample_uuid answered
                         [Receive first_reply; Invoke Play; Dispose])) !! 0
    = Some (Settled (Fulfilled (JObj []))).
Proof.
  split; [reflexivity |].
  exact (settled_promise_is_final sample_uuid answered
           [Receive first_reply; Invoke Play; Dispose] 0 (Fulfilled (JObj [])) eq_refl).
Defined.

Lemma pending_entries_await_witness :
  (∀ n, String.length (sample_uuid n) = 36)
  ∧ _pendingPromises (this awaiting) !! sample_uuid 0 = Some 0
  ∧ promises (browser awaiting) !! 0 = Some Pending.
Proof.
  split; [exact sample_uuid_length |]. split; [exact awaiting_entry |].
  exact (proj1 (proj2 (pending_entries_await sample_uuid sample_uuid_length
                         true player "public-token" [Receive onReady_event]
                         (sample_uuid 0) 0 awaiting_entry))).
Defined.

Lemma command_reply_round_trip_witness :
  let data := JObj [("id", JStr (sample_uuid 1)); ("error", JStr "no such template")] in
  let outcome := Rejected (Error "no such template") in
  wf awaiting ∧ ready (this awaiting) = true
  ∧ get data "id" = JStr (sample_uuid (uuid_calls (browser awaiting)))
  ∧ requested data = Some outcome
  ∧ ∃ p s1 (message : JsVal Z),
      call sample_uuid (LoadTemplate "template-1") awaiting
      = (Normal (Follows p (LoadTemplate "template-1")), s1)
      ∧ get message "id" = JStr (sample_uuid 1)
      ∧ promises (browser (_handleMessage sample_uuid data s1).2) !! p
        = Some (Settled outcome).
Proof.
  intros data outcome.
  split; [exact awaiting_wf |]. split; [reflexivity |]. split; [reflexivity |].
  split; [reflexivity |].
  destruct (command_reply_round_trip sample_uuid sample_uuid_length awaiting
              (LoadTemplate "template-1") data outcome awaiting_wf eq_refl eq_refl eq_refl)
    as (p & s1 & message & Hcall & _ & Hid & _ & _ & _ & Hsettled & _).
  exists p, s1, message. split; [exact Hcall |]. split; [exact Hid |]. exact Hsettled.
Defined.

Lemma addSlide_inserts_after_last_slide_witness :
  ∃ sent, sample_addSlide deck = Normal (Some sent)
    ∧ get sent "elements"
      = JArr [without_time deck_intro; without_time deck_slide;
              sample_createSlide "Slide-1" (new_caption 1); deck_outro].
Proof.
  destruct (addSlide_inserts_after_last_slide
              (mkDecimal 1 0) (mkDecimal 4 0) (mkDecimal 5 1) (mkDecimal 35 1)
              (deck_members [deck_intro; deck_slide; deck_outro])
              [deck_intro] [deck_outro] deck_slide)
    as (sent & Hsent & Helements & _).
  - reflexivity.
  - repeat constructor.
  - reflexivity.
  - repeat constructor.
  - exists sent. split; [exact Hsent | exact Helements].
Defined.

Lemma addSlide_without_slides_witness :
  sample_addSlide (JObj (deck_members [deck_intro; deck_outro])) = Normal None.
Proof.
  apply (addSlide_without_slides
           (mkDecimal 1 0) (mkDecimal 4 0) (mkDecimal 5 1) (mkDecimal 35 1)
           (deck_members [deck_intro; deck_outro]) [deck_intro; deck_outro]).
  - reflexivity.
  - repeat constructor.
  - repeat constructor.
Defined.

Lemma addSlide_repeats_name_witness :
  ∃ sent sent_elements old new,
    sample_addSlide deck = Normal (Some sent)
    ∧ get sent "elements" = JArr sent_elements
    ∧ sent_elements !! 1 = Some old
    ∧ sent_elements !! 2 = Some new
    ∧ get old "name" = JStr "Slide-1"
    ∧ get new "name" = JStr "Slide-1".
Proof.
  apply (addSlide_repeats_name
           (mkDecimal 1 0) (mkDecimal 4 0) (mkDecimal 5 1) (mkDecimal 35 1)
           (deck_members [deck_intro; deck_slide; deck_outro])
           [deck_intro] [deck_outro] deck_slide).
  - reflexivity.
  - repeat constructor.
  - reflexivity.
  - repeat constructor.
Defined.

Lemma addSlide_twice_witness :
  ∃ sent sent_again,
    sample_addSlide deck = Normal (Some sent)
    ∧ sample_addSlide sent = Normal (Some sent_again)
    ∧ get sent_again "elements"
      = JArr [without_time deck_intro; without_time deck_slide;
              sample_createSlide "Slide-1" (new_caption 1);
              sample_createSlide "Slide-2" (new_caption 2); deck_outro].
Proof.
  apply (addSlide_twice
           (mkDecimal 1 0) (mkDecimal 4 0) (mkDecimal 5 1) (mkDecimal 35 1)
           (deck_members [deck_intro; deck_slide; deck_outro])
           [deck_intro] [deck_outro] deck_slide).
  - reflexivity.
  - repeat constructor.
  - reflexivity.
  - repeat constructor.
Defined.

Lemma addSlide_throws_witness :
  sample_addSlide
    (JObj (deck_members [deck_slide; JObj [("name", JNum (mkDecimal 7 0))]]))
  = Throw (not_callable "element.name?.startsWith").
Proof.
  apply (proj2 (proj2 (proj2 (addSlide_throws
                  (mkDecimal 1 0) (mkDecimal 4 0) (mkDecimal 5 1) (mkDecimal 35 1))
                  (deck_members [deck_slide; JObj [("name", JNum (mkDecimal 7 0))]])))
           [deck_slide] (JObj [("name", JNum (mkDecimal 7 0))]) []).
  - reflexivity.
  - repeat constructor.
  - reflexivity.
  - constructor.
Defined.
